(** * Re.DicSearcher: entry store, schema migration, filter and links

    A shallow embedding of the storage and lookup core of Re.DicSearcher
    (versions 5.0 and 6.0): the [DatabaseManager] class with its SQL
    statements, the list filter of [refresh_list], the link scanner of
    [show_detail] and [jump_to_word_filter].

    Conventions.
    - A Python [str] is a [string]: the UTF-8 bytes of the text.  The
      bracket, the parenthesis and the newline are single bytes, and a
      byte-wise substring is a substring of the text.  [str.lower] is
      modelled on the ASCII letters; cased letters outside ASCII are left
      as they are.
    - An SQLite INTEGER and a Python [int] are a [Z].
    - A table is the list of its rows in rowid order.
    - Version 5.0 opens a connection for every call and version 6.0 keeps
      one; the statements are the same, and a call is modelled by what it
      leaves in the file once it has committed.  [migrate_db] of version
      5.0 is modelled statement by statement, on a connection. *)

From Stdlib Require Import ZArith List String Ascii Bool Lia.
From Stdlib Require Import Permutation Sorted DecimalString.
Import ListNotations.

Local Open Scope string_scope.
Local Open Scope Z_scope.

(** ** Text operations of the Python side *)

Module Text.

(** [c.lower()] on one character. *)
Definition lower_char (c : ascii) : ascii :=
  let n := nat_of_ascii c in
  if (Nat.leb 65 n && Nat.leb n 90)%bool then ascii_of_nat (n + 32) else c.

(** [s.lower()]. *)
Fixpoint lower (s : string) : string :=
  match s with
  | EmptyString => EmptyString
  | String c s' => String (lower_char c) (lower s')
  end.

(** [s.startswith(q)]. *)
Fixpoint startswith (s q : string) : bool :=
  match q, s with
  | EmptyString, _ => true
  | String _ _, EmptyString => false
  | String c q', String d s' => Ascii.eqb c d && startswith s' q'
  end.

(** [q in s]. *)
Fixpoint contains (s q : string) : bool :=
  startswith s q ||
  match s with
  | EmptyString => false
  | String _ s' => contains s' q
  end.

(** [s.endswith(q)]. *)
Fixpoint endswith (s q : string) : bool :=
  String.eqb s q ||
  match s with
  | EmptyString => false
  | String _ s' => endswith s' q
  end.

(** [not q]: the empty string is the only false string. *)
Definition is_empty (q : string) : bool :=
  match q with EmptyString => true | String _ _ => false end.

(** [s.split(sep)[0]] for a one-character separator. *)
Fixpoint split_head (sep : ascii) (s : string) : string :=
  match s with
  | EmptyString => EmptyString
  | String c s' => if Ascii.eqb c sep then EmptyString
                   else String c (split_head sep s')
  end.

(** Occurrence of a character. *)
Fixpoint has_char (c : ascii) (s : string) : bool :=
  match s with
  | EmptyString => false
  | String d s' => Ascii.eqb d c || has_char c s'
  end.

Definition newline : ascii := ascii_of_nat 10.
Definition lbracket : ascii := ascii_of_nat 91.
Definition rbracket : ascii := ascii_of_nat 93.
Definition lparen : ascii := ascii_of_nat 40.

End Text.

(** ** The SQLite database file *)

Module Sqlite.

(** One row of [dictionary]; the fields are the columns. *)
Record Row := mkRow {
  id : Z;
  term : string;
  pronunciation : string;
  pos : string;
  meaning : string;
  example : string;
  sort_order : Z
}.

(** The uniqueness constraint a [dictionary] table was created with:
    [term TEXT UNIQUE] up to v4, [UNIQUE(term, pos)] from v5.0 on, or
    none for a table that some other program created. *)
Inductive Constraint := NoConstraint | UniqueTerm | UniqueTermPos.

(** A table: its constraint, its rows in scan order and the counter
    AUTOINCREMENT keeps for it. *)
Record Table := mkTable {
  unique : Constraint;
  rows : list Row;
  sqlite_sequence : Z
}.

(** The tables of a database file that the program touches. *)
Record DB := mkDB {
  dictionary : option Table;
  dictionary_old : option Table;
  settings : option (list (string * string));
  db_metadata : option (list (string * string))
}.

Inductive sqlite_error := OperationalError | IntegrityError.

Inductive result (A : Type) :=
| Ok (a : A)
| Raise (e : sqlite_error).
Arguments Ok {A} a.
Arguments Raise {A} e.

Definition empty_db : DB := mkDB None None None None.

Definition set_dictionary (db : DB) (t : option Table) : DB :=
  mkDB t (dictionary_old db) (settings db) (db_metadata db).

(** [WHERE term = ? AND pos = ?]: TEXT compares byte by byte. *)
Definition where_term_pos (t p : string) (r : Row) : bool :=
  String.eqb (term r) t && String.eqb (pos r) p.

(** [WHERE id = ?]. *)
Definition where_id (i : Z) (r : Row) : bool := Z.eqb (id r) i.

(** [SELECT MAX(sort_order)]: NULL on an empty table. *)
Fixpoint max_sort_order (rs : list Row) : option Z :=
  match rs with
  | [] => None
  | r :: rs' =>
      match max_sort_order rs' with
      | None => Some (sort_order r)
      | Some m => Some (Z.max (sort_order r) m)
      end
  end.

(** Largest rowid in use, 0 when there is none above it. *)
Definition max_id (rs : list Row) : Z :=
  fold_right (fun r m => Z.max (id r) m) 0 rs.

(** The rowid AUTOINCREMENT hands out: one more than every rowid the
    table holds or has ever held. *)
Definition next_id (t : Table) : Z :=
  Z.max (sqlite_sequence t) (max_id (rows t)) + 1.

(** Would a new row with this term and part of speech break the
    table's constraint? *)
Definition conflicts (c : Constraint) (rs : list Row) (t p : string) : bool :=
  match c with
  | NoConstraint => false
  | UniqueTerm => existsb (fun r => String.eqb (term r) t) rs
  | UniqueTermPos => existsb (where_term_pos t p) rs
  end.

(** [INSERT INTO dictionary (term, pronunciation, pos, meaning, example,
    sort_order) VALUES (...)]. *)
Definition insert_row (t : Table) (tm pr ps mn ex : string) (so : Z)
  : result Table :=
  if conflicts (unique t) (rows t) tm ps then Raise IntegrityError
  else
    let i := next_id t in
    Ok (mkTable (unique t) (rows t ++ [mkRow i tm pr ps mn ex so]) i).

(** [UPDATE dictionary SET pronunciation=?, meaning=?, example=?
    WHERE term=? AND pos=?]. *)
Definition update_fields (pr mn ex tm ps : string) (r : Row) : Row :=
  if where_term_pos tm ps r
  then mkRow (id r) (term r) pr (pos r) mn ex (sort_order r)
  else r.

(** [UPDATE dictionary SET sort_order = ? WHERE id = ?]. *)
Definition update_sort_order (o i : Z) (r : Row) : Row :=
  if where_id i r
  then mkRow (id r) (term r) (pronunciation r) (pos r) (meaning r)
             (example r) o
  else r.

Definition map_rows (f : Row -> Row) (t : Table) : Table :=
  mkTable (unique t) (map f (rows t)) (sqlite_sequence t).

(** [ORDER BY sort_order ASC]: insertion into a list that is already in
    order, before the first row whose key is not smaller. *)
Fixpoint insert_sorted (r : Row) (l : list Row) : list Row :=
  match l with
  | [] => [r]
  | x :: l' => if Z.leb (sort_order r) (sort_order x) then r :: x :: l'
               else x :: insert_sorted r l'
  end.

Fixpoint order_by_sort_order (l : list Row) : list Row :=
  match l with
  | [] => []
  | r :: l' => insert_sorted r (order_by_sort_order l')
  end.

(** [CREATE TABLE IF NOT EXISTS dictionary (..., UNIQUE(term, pos))]. *)
Definition create_dictionary (db : DB) : DB :=
  match dictionary db with
  | Some _ => db
  | None => set_dictionary db (Some (mkTable UniqueTermPos [] 0))
  end.

(** [CREATE TABLE IF NOT EXISTS settings (...)]. *)
Definition create_settings (db : DB) : DB :=
  match settings db with
  | Some _ => db
  | None => mkDB (dictionary db) (dictionary_old db) (Some []) (db_metadata db)
  end.

(** [CREATE TABLE IF NOT EXISTS db_metadata (...)]. *)
Definition create_db_metadata (db : DB) : DB :=
  match db_metadata db with
  | Some _ => db
  | None => mkDB (dictionary db) (dictionary_old db) (settings db) (Some [])
  end.

(** [ALTER TABLE dictionary RENAME TO dictionary_old]: fails when there
    is no [dictionary] or when the new name is taken. *)
Definition rename_to_old (db : DB) : result DB :=
  match dictionary db, dictionary_old db with
  | Some t, None => Ok (mkDB None (Some t) (settings db) (db_metadata db))
  | _, _ => Raise OperationalError
  end.

(** The rows of [INSERT INTO dictionary (...) SELECT ... FROM
    dictionary_old], one insertion per row of the old table; their order
    decides only which [id] a row is given. *)
Fixpoint insert_all (t : Table) (src : list Row) : result Table :=
  match src with
  | [] => Ok t
  | r :: src' =>
      match insert_row t (term r) (pronunciation r) (pos r) (meaning r)
                       (example r) (sort_order r) with
      | Ok t' => insert_all t' src'
      | Raise e => Raise e
      end
  end.

(** The whole statement: all rows or, on a failure, none. *)
Definition copy_from_old (db : DB) : result DB :=
  match dictionary db, dictionary_old db with
  | Some t, Some old =>
      match insert_all t (rows old) with
      | Ok t' => Ok (set_dictionary db (Some t'))
      | Raise e => Raise e
      end
  | _, _ => Raise OperationalError
  end.

(** [DROP TABLE dictionary_old]. *)
Definition drop_old (db : DB) : result DB :=
  match dictionary_old db with
  | Some _ => Ok (mkDB (dictionary db) None (settings db) (db_metadata db))
  | None => Raise OperationalError
  end.

End Sqlite.

(** ** class DatabaseManager: the statements both versions share *)

Module DatabaseManager.
Import Sqlite.

(** The [data] dictionary handed to [upsert_word]. *)
Record Data := mkData {
  data_term : string;
  data_pronunciation : string;
  data_pos : string;
  data_meaning : string;
  data_example : string
}.

(** The two strings [upsert_word] returns. *)
Inductive Outcome := created | updated.

(** [cursor.fetchone()]. *)
Definition fetchone {A : Type} (l : list A) : option A := hd_error l.

(** [get_all_words]: [SELECT * FROM dictionary ORDER BY sort_order ASC].
    The statement names one sort key; SQL leaves open in which order rows
    come that are equal under it.  The rows are therefore sorted from an
    arrangement that is not fixed. *)
Inductive get_all_words (db : DB) : list Row -> Prop :=
| fetchall (t : Table) (scan : list Row) :
    dictionary db = Some t ->
    Permutation scan (rows t) ->
    get_all_words db (order_by_sort_order scan).

(** [upsert_word(data)]. *)
Definition upsert_word (db : DB) (data : Data) : result (DB * Outcome) :=
  match dictionary db with
  | None => Raise OperationalError
  | Some t =>
      let found := filter (where_term_pos (data_term data) (data_pos data))
                          (rows t) in
      match fetchone found with
      | Some _ =>
          let t' := map_rows (update_fields (data_pronunciation data)
                                (data_meaning data) (data_example data)
                                (data_term data) (data_pos data)) t in
          Ok (set_dictionary db (Some t'), updated)
      | None =>
          let new_order := match max_sort_order (rows t) with
                           | None => 1
                           | Some max_order => max_order + 1
                           end in
          match insert_row t (data_term data) (data_pronunciation data)
                           (data_pos data) (data_meaning data)
                           (data_example data) new_order with
          | Ok t' => Ok (set_dictionary db (Some t'), created)
          | Raise e => Raise e
          end
      end
  end.

(** [delete_word(term, pos)]. *)
Definition delete_word (db : DB) (tm ps : string) : result DB :=
  match dictionary db with
  | None => Raise OperationalError
  | Some t =>
      Ok (set_dictionary db
            (Some (mkTable (unique t)
                     (filter (fun r => negb (where_term_pos tm ps r)) (rows t))
                     (sqlite_sequence t))))
  end.

(** [update_order(id1, order1, id2, order2)]: two UPDATE statements, then
    one commit. *)
Definition update_order (db : DB) (id1 order1 id2 order2 : Z) : result DB :=
  match dictionary db with
  | None => Raise OperationalError
  | Some t =>
      let t1 := map_rows (update_sort_order order1 id1) t in
      let t2 := map_rows (update_sort_order order2 id2) t1 in
      Ok (set_dictionary db (Some t2))
  end.


End DatabaseManager.

(** ** Version 6.0: [migrate_db] *)

Module V6.
Import Sqlite.

(** Two [CREATE TABLE IF NOT EXISTS] statements. *)
Definition migrate_db (db : DB) : DB :=
  create_db_metadata (create_dictionary db).

End V6.

(** ** Version 5.0: [migrate_db] on a connection

    The [sqlite3] module opens a transaction before an INSERT, UPDATE or
    DELETE when none is open and leaves every other statement alone: a
    schema statement outside a transaction takes effect on the file at
    once, one inside a transaction with that transaction's commit. *)

Module V5.
Import Sqlite.

Inductive Stmt :=
| CreateSettings | SelectMaster | RenameToOld
| CreateDictionary | CopyRows | DropOld.

Inductive Event :=
| Begin
| Done (s : Stmt)
| Failed (s : Stmt) (e : sqlite_error)
| Caught (e : sqlite_error)
| Commit.

(** A connection: the file, the open transaction's view of it if one is
    open, and the statements run so far, oldest first. *)
Record Conn := mkConn {
  disk : DB;
  txn : option DB;
  trace : list Event
}.

Definition connect (db : DB) : Conn := mkConn db None [].

Definition view (c : Conn) : DB :=
  match txn c with Some d => d | None => disk c end.

Definition note (ev : Event) (c : Conn) : Conn :=
  mkConn (disk c) (txn c) (trace c ++ [ev]).

(** What a statement leaves: the connection and the exception, if any. *)
Definition Step := Conn -> Conn * option sqlite_error.

(** [cursor.execute] of a schema statement. *)
Definition execute_ddl (s : Stmt) (f : DB -> result DB) : Step :=
  fun c =>
    match f (view c) with
    | Ok d =>
        (match txn c with
         | Some _ => mkConn (disk c) (Some d) (trace c ++ [Done s])
         | None => mkConn d None (trace c ++ [Done s])
         end, None)
    | Raise e => (note (Failed s e) c, Some e)
    end.

(** [cursor.execute] of an INSERT. *)
Definition execute_dml (s : Stmt) (f : DB -> result DB) : Step :=
  fun c =>
    let c1 := match txn c with
              | Some _ => c
              | None => mkConn (disk c) (Some (disk c)) (trace c ++ [Begin])
              end in
    match f (view c1) with
    | Ok d => (mkConn (disk c1) (Some d) (trace c1 ++ [Done s]), None)
    | Raise e => (note (Failed s e) c1, Some e)
    end.

(** [cursor.execute] of a SELECT. *)
Definition execute_query (s : Stmt) : Step :=
  fun c => (note (Done s) c, None).

(** [conn.commit()]. *)
Definition commit (c : Conn) : Conn :=
  mkConn (view c) None (trace c ++ [Commit]).

(** Statements in sequence: an exception skips the rest. *)
Definition and_then (a b : Step) : Step :=
  fun c =>
    match a c with
    | (c', None) => b c'
    | (c', Some e) => (c', Some e)
    end.

Notation "a ;; b" := (and_then a b) (at level 61, right associativity).

(** [try: ... except sqlite3.OperationalError: pass
    except Exception as e: print(...)]: either handler ends the
    exception. *)
Definition try_except (body : Step) (c : Conn) : Conn :=
  match body c with
  | (c', None) => c'
  | (c', Some e) => note (Caught e) c'
  end.

(** [_create_v2_4_table(cursor)]. *)
Definition _create_v2_4_table : Step :=
  execute_ddl CreateDictionary (fun d => Ok (create_dictionary d)).

(** [migrate_db]. *)
Definition migrate_db (db : DB) : Conn :=
  let conn := connect db in
  let conn := fst (execute_ddl CreateSettings
                     (fun d => Ok (create_settings d)) conn) in
  let conn := fst (execute_query SelectMaster conn) in
  let conn :=
    match dictionary (view conn) with
    | None => fst (_create_v2_4_table conn)
    | Some _ =>
        try_except
          (execute_ddl RenameToOld rename_to_old ;;
           _create_v2_4_table ;;
           execute_dml CopyRows copy_from_old ;;
           execute_ddl DropOld drop_old) conn
    end in
  let conn := commit conn in
  commit conn.

(** The file after [migrate_db]. *)
Definition migrated (db : DB) : DB := disk (migrate_db db).

End V5.

(** ** class ReDicSearcherApp: list, detail pane and links *)

Module App.
Import Sqlite DatabaseManager.

(** The three values of the [search_mode] radio buttons. *)
Inductive SearchMode := mode_contains | mode_startswith | mode_endswith.

(** [current_mode]. *)
Inductive EditMode := mode_read | mode_write.

(** The tags of [log]. *)
Inductive Level := info | warn | error | success.

(** One [detail_text.insert]: plain text, or a word under the
    [hyperlink] tag whose click calls [jump_to_word_filter] with it. *)
Inductive Span :=
| Plain (s : string)
| Link (w : string).

(** The part of the window the modelled methods read and write. *)
Record State := mkState {
  entry_search : string;
  search_mode : SearchMode;
  current_mode : EditMode;
  data_cache : list Row;
  display_items : list Row;
  listbox : list string;
  curselection : list nat;
  lbl_detail_term : string;
  detail_text : list Span;
  form : option Row;
  log_text : list (Level * string)
}.

(** The test of one [item] in the loop of [refresh_list]; [query] is
    already in lower case. *)
Definition matches (mode : SearchMode) (query : string) (item : Row) : bool :=
  let w_l := Text.lower (term item) in
  if Text.is_empty query then true
  else match mode with
       | mode_contains => Text.contains w_l query
       | mode_startswith => Text.startswith w_l query
       | mode_endswith => Text.endswith w_l query
       end.

(** [f"{item['term']} ({item['pos'].split('(')[0]})"]. *)
Definition display_str (item : Row) : string :=
  term item ++ " (" ++ Text.split_head Text.lparen (pos item) ++ ")".

(** The [for item in self.data_cache] loop: the list box lines and
    [display_items] grow together. *)
Fixpoint refresh_loop (mode : SearchMode) (query : string) (items : list Row)
         (lines : list string) (shown : list Row)
  : list string * list Row :=
  match items with
  | [] => (lines, shown)
  | item :: rest =>
      if matches mode query item
      then refresh_loop mode query rest
             (lines ++ [display_str item]) (shown ++ [item])
      else refresh_loop mode query rest lines shown
  end.

(** The entries [refresh_list] leaves in [display_items] for a list of
    entries, a query as typed and a mode. *)
Definition Filter (all : list Row) (query : string) (mode : SearchMode)
  : list Row :=
  snd (refresh_loop mode (Text.lower query) all [] []).

(** [refresh_list(query)]; [fetched] is what [get_all_words()] returned. *)
Definition refresh_list (fetched : list Row) (st : State) (query : string)
  : State :=
  let r := refresh_loop (search_mode st) (Text.lower query) fetched [] [] in
  mkState (entry_search st) (search_mode st) (current_mode st)
          fetched (snd r) (fst r) []
          (lbl_detail_term st) (detail_text st) (form st) (log_text st).

(** [(.*?)\]] at the head of [s]: the group, if the rest of the pattern
    matches.  The lazy star tries the closing bracket first and takes one
    more character, never a newline, only when that fails. *)
Fixpoint lazy_group (s : string) : option string :=
  match s with
  | EmptyString => None
  | String c s' =>
      if Ascii.eqb c Text.rbracket then Some EmptyString
      else if Ascii.eqb c Text.newline then None
      else match lazy_group s' with
           | Some w => Some (String c w)
           | None => None
           end
  end.

(** [\[(.*?)\]] at the head of [s]: [match.group(1)]. *)
Definition match_here (s : string) : option string :=
  match s with
  | EmptyString => None
  | String c s' => if Ascii.eqb c Text.lbracket then lazy_group s' else None
  end.

(** The [for match in pattern.finditer(content)] loop and the insert
    after it.  [skip] counts the characters still inside the last match,
    [plain] is [content[last_pos:]] up to the character at hand. *)
Fixpoint link_spans (content : string) (skip : nat) (plain : string)
  : list Span :=
  match content with
  | EmptyString => [Plain plain]
  | String c rest =>
      match skip with
      | S k => link_spans rest k plain
      | O =>
          match match_here content with
          | Some link_word =>
              Plain plain :: Link link_word ::
              link_spans rest (S (String.length link_word)) EmptyString
          | None => link_spans rest O (plain ++ String c EmptyString)
          end
      end
  end.

(** The inserts [show_detail] makes for a text. *)
Definition ExtractLinks (text : string) : list Span :=
  link_spans text O EmptyString.

Definition nl : string := String Text.newline EmptyString.

(** The [content] f-string of [show_detail]. *)
Definition content (item : Row) : string :=
  "【発音】 " ++ pronunciation item ++ nl ++
  "【品詞】 " ++ pos item ++ nl ++ nl ++
  "【意味】" ++ nl ++ meaning item ++ nl ++ nl ++
  "【例文】" ++ nl ++ example item.

(** [show_detail(event)]. *)
Definition show_detail (st : State) : State :=
  match curselection st with
  | [] => st
  | idx :: _ =>
      match nth_error (display_items st) idx with
      | None => st
      | Some item =>
          mkState (entry_search st) (search_mode st) (current_mode st)
                  (data_cache st) (display_items st) (listbox st)
                  (curselection st)
                  (term item) (ExtractLinks (content item))
                  (match current_mode st with
                   | mode_write => Some item
                   | mode_read => form st
                   end)
                  (log_text st)
      end
  end.

(** [log(message, level)]. *)
Definition log (st : State) (message : string) (level : Level) : State :=
  mkState (entry_search st) (search_mode st) (current_mode st)
          (data_cache st) (display_items st) (listbox st) (curselection st)
          (lbl_detail_term st) (detail_text st) (form st)
          (log_text st ++ [(level, message)]).

(** [listbox.selection_set(0)]. *)
Definition selection_set0 (st : State) : State :=
  mkState (entry_search st) (search_mode st) (current_mode st)
          (data_cache st) (display_items st) (listbox st)
          (if existsb (Nat.eqb 0) (curselection st) then curselection st
           else 0%nat :: curselection st)
          (lbl_detail_term st) (detail_text st) (form st) (log_text st).

(** [jump_to_word_filter(word)]; [fetched] as in [refresh_list]. *)
Definition jump_to_word_filter (fetched : list Row) (st : State)
           (word : string) : State :=
  let st := mkState word mode_contains (current_mode st)
                    (data_cache st) (display_items st) (listbox st)
                    (curselection st) (lbl_detail_term st) (detail_text st)
                    (form st) (log_text st) in
  let st := refresh_list fetched st word in
  let st := log st ("Filtered by link: " ++ word) info in
  if Nat.ltb 0 (List.length (listbox st))
  then show_detail (selection_set0 st)
  else st.

(** The text a list of inserts leaves in the widget, with the brackets
    of each link put back. *)
Fixpoint source_text (l : list Span) : string :=
  match l with
  | [] => EmptyString
  | Plain s :: l' => s ++ source_text l'
  | Link w :: l' => String Text.lbracket (w ++ String Text.rbracket (source_text l'))
  end.

End App.

(** ** Properties the statements are about *)

Module Props.
Import Sqlite DatabaseManager App.

(** The pair that identifies an entry from v5.0 on. *)
Definition key (r : Row) : string * string := (term r, pos r).

(** No two rows share both term and part of speech. *)
Definition entries_unique (rs : list Row) : Prop := NoDup (map key rs).


(** The columns the migration copies: all but [id]. *)
Definition content_of (r : Row)
  : string * string * string * string * string * Z :=
  (term r, pronunciation r, pos r, meaning r, example r, sort_order r).

(** Rows in ascending [sort_order]. *)
Definition ascending (l : list Row) : Prop :=
  StronglySorted (fun a b => sort_order a <= sort_order b) l.


(** [l1] is [l2] with some elements left out. *)
Inductive subseq {A : Type} : list A -> list A -> Prop :=
| subseq_nil : subseq [] []
| subseq_skip (x : A) (l1 l2 : list A) : subseq l1 l2 -> subseq l1 (x :: l2)
| subseq_take (x : A) (l1 l2 : list A) :
    subseq l1 l2 -> subseq (x :: l1) (x :: l2).


(** What one row looks like before and after [update_order]. *)
Definition reordered (id1 id2 : Z) (r r' : Row) : Prop :=
  id r' = id r /\ term r' = term r /\ pronunciation r' = pronunciation r /\
  pos r' = pos r /\ meaning r' = meaning r /\ example r' = example r /\
  (id r <> id1 -> id r <> id2 -> r' = r).



(** A word with no closing bracket in it. *)
Definition no_rbracket (w : string) : Prop :=
  Text.has_char Text.rbracket w = false.

(** A word with neither a closing bracket nor a newline in it. *)
Definition clean_word (w : string) : Prop :=
  Text.has_char Text.rbracket w = false /\
  Text.has_char Text.newline w = false.

(** [[w]r]: the word [w] in brackets, then [r]. *)
Definition bracketed (w r : string) : string :=
  String Text.lbracket (w ++ String Text.rbracket r).

(** [s] begins with a link whose word is acceptable. *)
Definition starts_link (ok : string -> Prop) (s : string) : Prop :=
  exists w r : string, s = bracketed w r /\ ok w.

(** A text split at its links, leftmost link first: plain text, then a
    bracketed acceptable word, then the split of what follows; no link
    begins inside the plain text. *)
Inductive split_on (ok : string -> Prop) : string -> list Span -> Prop :=
| split_plain (p : string) :
    (forall a b : string, p = a ++ b -> ~ starts_link ok b) ->
    split_on ok p [Plain p]
| split_link (p w r : string) (l : list Span) :
    ok w ->
    (forall a b : string,
       p = a ++ b -> b <> "" -> ~ starts_link ok (b ++ bracketed w r)) ->
    split_on ok r l ->
    split_on ok (p ++ bracketed w r) (Plain p :: Link w :: l).

(** The rowids a table created anew hands out for [n] insertions. *)
Definition fresh_ids (n : nat) : list Z := map Z.of_nat (List.seq 1 n).

(** The rows of a scan as [INSERT ... SELECT] stores them in a table whose
    rowids have reached [k]: every column but [id] is taken over. *)
Fixpoint renumber (k : Z) (src : list Row) : list Row :=
  match src with
  | [] => []
  | r :: src' =>
      mkRow (k + 1) (term r) (pronunciation r) (pos r) (meaning r)
            (example r) (sort_order r) :: renumber (k + 1) src'
  end.

(** The spec's rule as it is worded: every DROP of the old table comes
    after a copy and a commit that follows the copy. *)
Definition drop_after_committed_copy (tr : list V5.Event) : Prop :=
  forall pre post : list V5.Event,
    tr = (pre ++ V5.Done V5.DropOld :: post)%list ->
    exists a b c : list V5.Event,
      pre = (a ++ V5.Done V5.CopyRows :: b ++ V5.Commit :: c)%list.

End Props.

(** ** Stores and entries the statements are tried on *)

Module Examples.
Import Sqlite DatabaseManager App.

Definition entry (tm ps mn : string) : Data := mkData tm "" ps mn "".

(** A new file, opened by version 6.0. *)
Definition fresh : DB := V6.migrate_db empty_db.

Definition run_v : Data := entry "run" "V(動詞)" "to move fast, see [sprint]".

Definition table_run : Table :=
  mkTable UniqueTermPos
    [mkRow 1 "run" "" "V(動詞)" "to move fast, see [sprint]" "" 1] 1.

Definition store_run : DB := mkDB (Some table_run) None None (Some []).

Definition row_run_v : Row :=
  mkRow 1 "run" "" "V(動詞)" "to move fast, see [sprint]" "" 1.
Definition row_run_n : Row :=
  mkRow 2 "run" "" "N(名詞)" "a single execution" "" 2.

Definition table_two : Table :=
  mkTable UniqueTermPos [row_run_v; row_run_n] 2.

Definition store_two : DB := mkDB (Some table_two) None None (Some []).

(** Two entries under one [sort_order], as a file from elsewhere may hold
    them. *)
Definition row_cat : Row := mkRow 1 "cat" "" "N(名詞)" "a pet" "" 5.
Definition row_dog : Row := mkRow 2 "dog" "" "N(名詞)" "see [cat]" "" 5.


(** A bracketed word that runs over a line break. *)
Definition two_lines : string := "see [black" ++ nl ++ "cat]".

(** The window before any search. *)
Definition start : State :=
  mkState "" mode_startswith mode_read [] [] [] [] "" [] None [].

(** A notice that a link led nowhere, as v3 and v4 logged it. *)
Definition says_not_found (entry : Level * string) : bool :=
  Text.contains (Text.lower (snd entry)) "not found".

(** A [dictionary] table that another program made, without a uniqueness
    constraint and with one entry twice. *)
Definition table_foreign : Table :=
  mkTable NoConstraint
    [mkRow 1 "tea" "" "N(名詞)" "a drink" "" 1;
     mkRow 2 "tea" "" "N(名詞)" "a meal" "" 2] 2.

Definition store_foreign : DB := mkDB (Some table_foreign) None None None.

(** A table as versions 2 to 4 made it, under [term TEXT UNIQUE]. *)
Definition table_legacy : Table :=
  mkTable UniqueTerm
    [mkRow 3 "tea" "" "N(名詞)" "a drink" "" 2;
     mkRow 7 "run" "" "V(動詞)" "to move fast" "" 1] 7.

Definition store_legacy : DB :=
  mkDB (Some table_legacy) None (Some [("theme", "Dark")]) None.

(** The window that lists the two senses of [run], the first selected. *)
Definition window_two : State :=
  mkState "" mode_contains mode_read [row_run_v; row_run_n]
          [row_run_v; row_run_n]
          [display_str row_run_v; display_str row_run_n] [0%nat]
          "" [] None [].

End Examples.

Import Sqlite DatabaseManager App Props Examples.

(** ** Further methods of [str] *)

Module Str.

(** [c.isspace()] on the ASCII range. *)
Definition isspace (c : ascii) : bool :=
  let n := nat_of_ascii c in
  ((Nat.leb 9 n && Nat.leb n 13) || (Nat.leb 28 n && Nat.leb n 32))%bool.

(** [s.lstrip()]. *)
Fixpoint lstrip (s : string) : string :=
  match s with
  | EmptyString => EmptyString
  | String c s' => if isspace c then lstrip s' else s
  end.

(** [s.rstrip()]. *)
Fixpoint rstrip (s : string) : string :=
  match s with
  | EmptyString => EmptyString
  | String c s' =>
      match rstrip s' with
      | EmptyString => if isspace c then EmptyString else String c EmptyString
      | String d r => String c (String d r)
      end
  end.

(** [s.strip()]; blanks outside ASCII are left, as with [Text.lower]. *)
Definition strip (s : string) : string := rstrip (lstrip s).

(** [str(n)] of an integer. *)
Definition of_int (z : Z) : string := NilZero.string_of_int (Z.to_int z).

End Str.

(** ** Version 5.0: the [settings] table *)

Module Settings.
Import Sqlite DatabaseManager.

Definition set_settings (db : DB) (s : list (string * string)) : DB :=
  mkDB (dictionary db) (dictionary_old db) (Some s) (db_metadata db).

(** [WHERE key = ?]. *)
Definition where_key (k : string) (kv : string * string) : bool :=
  String.eqb (fst kv) k.

(** [get_setting(key, default)]. *)
Definition get_setting (db : DB) (k : string) (default : option string)
  : result (option string) :=
  match settings db with
  | None => Raise OperationalError
  | Some rs =>
      match fetchone (filter (where_key k) rs) with
      | Some res => Ok (Some (snd res))
      | None => Ok default
      end
  end.

(** [set_setting(key, value)]: [INSERT OR REPLACE] removes the row that
    holds the primary key, then inserts. *)
Definition set_setting (db : DB) (k v : string) : result DB :=
  match settings db with
  | None => Raise OperationalError
  | Some rs =>
      Ok (set_settings db
            (filter (fun kv => negb (where_key k kv)) rs ++ [(k, v)]))
  end.

End Settings.

(** ** JSON import and export *)

Module Json.
Import Sqlite DatabaseManager.

(** The values the model reads from a file: strings and integers. *)
Inductive Value :=
| Str (s : string)
| Int (z : Z).

(** A [dict] from [json.load]: its items, each key once. *)
Definition Object := list (string * Value).

(** What [json.load] returned: a list of objects, or an object whose
    values are objects. *)
Inductive Content :=
| Array (items : list Object)
| Members (members : list (string * Object)).

(** What ends the [try] block early. *)
Inductive Exception :=
| DatabaseError (e : sqlite_error)
| OverflowError
| TypeError.

(** [item.get(key, default)]. *)
Fixpoint get (item : Object) (k : string) (default : Value) : Value :=
  match item with
  | [] => default
  | (k', v) :: item' => if String.eqb k' k then v else get item' k default
  end.

(** [key in item]. *)
Definition has_key (item : Object) (k : string) : bool :=
  existsb (fun kv => String.eqb (fst kv) k) item.

(** [if value:]. *)
Definition truthy (v : Value) : bool :=
  match v with
  | Str s => negb (Text.is_empty s)
  | Int z => negb (Z.eqb z 0)
  end.

(** A value bound to a parameter of a statement on TEXT columns: a string
    as it is, an integer in decimal; an integer outside 64 bits cannot be
    bound. *)
Definition bind (v : Value) : option string :=
  match v with
  | Str s => Some s
  | Int z =>
      if (Z.leb (- 2 ^ 63) z && Z.ltb z (2 ^ 63))%bool
      then Some (Str.of_int z) else None
  end.

(** [dict(term=k, **v)]: a keyword given twice is a [TypeError]. *)
Definition with_term (k : string) (v : Object) : option Object :=
  if has_key v "term" then None else Some (("term", Str k) :: v).

(** [[dict(term=k, **v) for k, v in content.items()]]. *)
Fixpoint members_items (m : list (string * Object)) : option (list Object) :=
  match m with
  | [] => Some []
  | (k, v) :: m' =>
      match with_term k v with
      | None => None
      | Some item =>
          match members_items m' with
          | None => None
          | Some items => Some (item :: items)
          end
      end
  end.

(** [content if isinstance(content, list) else [...]]. *)
Definition items_of (content : Content) : option (list Object) :=
  match content with
  | Array items => Some items
  | Members m => members_items m
  end.

(** [item.get("term", item.get("word", ""))]. *)
Definition term_of (item : Object) : Value :=
  get item "term" (get item "word" (Str "")).

(** The call of [upsert_word] for one item.  A statement is prepared
    before its parameters are bound: without a table that fails first. *)
Definition upsert_item (db : DB) (item : Object) : DB * option Exception :=
  match dictionary db with
  | None => (db, Some (DatabaseError OperationalError))
  | Some _ =>
      match bind (term_of item),
            bind (get item "pronunciation" (Str "")),
            bind (get item "part_of_speech" (get item "pos" (Str ""))),
            bind (get item "definition" (get item "meaning" (Str ""))),
            bind (get item "example" (Str "")) with
      | Some tm, Some pr, Some ps, Some mn, Some ex =>
          match upsert_word db (mkData tm pr ps mn ex) with
          | Ok (db', _) => (db', None)
          | Raise e => (db, Some (DatabaseError e))
          end
      | _, _, _, _, _ => (db, Some OverflowError)
      end
  end.

(** The [for item in items] loop: the file, [count] and what was raised. *)
Fixpoint import_loop (db : DB) (items : list Object) (count : nat)
  : DB * nat * option Exception :=
  match items with
  | [] => (db, count, None)
  | item :: rest =>
      if truthy (term_of item)
      then match upsert_item db item with
           | (db', None) => import_loop db' rest (S count)
           | (db', Some e) => (db', count, Some e)
           end
      else import_loop db rest count
  end.

(** The [try] block of [import_json_logic] for parsed content, up to the
    log line. *)
Definition import_json_logic (db : DB) (content : Content)
  : DB * nat * option Exception :=
  match items_of content with
  | None => (db, O, Some TypeError)
  | Some items => import_loop db items O
  end.

(** One row as [get_all_words] hands it to [json.dump]. *)
Definition export_row (r : Row) : Object :=
  [("id", Int (id r)); ("term", Str (term r));
   ("pronunciation", Str (pronunciation r)); ("pos", Str (pos r));
   ("meaning", Str (meaning r)); ("example", Str (example r));
   ("sort_order", Int (sort_order r))].

(** [do_export_json]: what is written for the list [get_all_words]
    returned. *)
Definition do_export_json (fetched : list Row) : Content :=
  Array (map export_row fetched).

End Json.

(** ** class ReDicSearcherApp: saving, deleting and moving entries

    A method that reads the list again after a write is given the list
    [get_all_words] returns then, as [fetched]; the text of the entry
    fields and the choice of [pos_var] come as [entries]. *)

Module Editing.
Import Sqlite DatabaseManager App.

(** An exception that leaves a method. *)
Inductive Exception :=
| DatabaseError (e : sqlite_error)
| IndexError.

Inductive outcome (A : Type) :=
| Returns (a : A)
| Raises (e : Exception).
Arguments Returns {A} a.
Arguments Raises {A} e.

(** [clear_form()]. *)
Definition clear_form (st : State) : State :=
  mkState (entry_search st) (search_mode st) (current_mode st)
          (data_cache st) (display_items st) (listbox st) (curselection st)
          (lbl_detail_term st) (detail_text st) None (log_text st).

(** [listbox.selection_set(n)]: an index past the last line selects
    nothing. *)
Definition selection_set (n : nat) (st : State) : State :=
  mkState (entry_search st) (search_mode st) (current_mode st)
          (data_cache st) (display_items st) (listbox st)
          (if (Nat.ltb n (List.length (listbox st)) &&
               negb (existsb (Nat.eqb n) (curselection st)))%bool
           then n :: curselection st else curselection st)
          (lbl_detail_term st) (detail_text st) (form st) (log_text st).

(** The [data] dictionary [save_entry] builds from the form. *)
Definition form_data (entries : Data) : Data :=
  mkData (Str.strip (data_term entries))
         (Str.strip (data_pronunciation entries))
         (data_pos entries)
         (Str.strip (data_meaning entries))
         (Str.strip (data_example entries)).

(** [save_entry()]. *)
Definition save_entry (db : DB) (st : State) (entries : Data)
           (fetched : list Row) : outcome (DB * State) :=
  match current_mode st with
  | mode_read => Returns (db, st)
  | mode_write =>
      let data := form_data entries in
      if Text.is_empty (data_term data)
      then Returns (db, log st "Term required." warn)
      else
        match upsert_word db data with
        | Raise e => Raises (DatabaseError e)
        | Ok (db', res) =>
            let st := refresh_list fetched st (entry_search st) in
            Returns (db',
                     log st ((match res with
                              | created => "Registered"
                              | updated => "Updated"
                              end) ++ ": " ++ data_term data) success)
        end
  end.

(** [delete_entry()]; [answer] is what [askyesno] returns when it is
    asked. *)
Definition delete_entry (db : DB) (st : State) (entries : Data)
           (answer : bool) (fetched : list Row) : outcome (DB * State) :=
  let tm := Str.strip (data_term entries) in
  let ps := data_pos entries in
  if (negb (Text.is_empty tm) && answer)%bool
  then
    match delete_word db tm ps with
    | Raise e => Raises (DatabaseError e)
    | Ok db' =>
        let st := clear_form st in
        let st := refresh_list fetched st (entry_search st) in
        Returns (db', log st ("Deleted: " ++ tm) warn)
    end
  else Returns (db, st).

(** [_move(d)]. *)
Definition _move (db : DB) (st : State) (d : Z) (fetched : list Row)
  : outcome (DB * State) :=
  if negb (Text.is_empty (entry_search st))
  then Returns (db, log st "Clear search first." warn)
  else
    match curselection st with
    | [] => Returns (db, st)
    | i :: _ =>
        let ti := Z.of_nat i + d in
        if (Z.leb 0 ti && Z.ltb ti (Z.of_nat (List.length (display_items st))))%bool
        then
          match nth_error (display_items st) i,
                nth_error (display_items st) (Z.to_nat ti) with
          | Some item1, Some item2 =>
              match update_order db (id item1) (sort_order item2)
                                 (id item2) (sort_order item1) with
              | Raise e => Raises (DatabaseError e)
              | Ok db' =>
                  Returns (db',
                           selection_set (Z.to_nat ti)
                             (refresh_list fetched st ""))
              end
          | _, _ => Raises IndexError
          end
        else Returns (db, st)
    end.

Definition move_up (db : DB) (st : State) (fetched : list Row)
  : outcome (DB * State) := _move db st (-1) fetched.

Definition move_down (db : DB) (st : State) (fetched : list Row)
  : outcome (DB * State) := _move db st 1 fetched.

End Editing.

(** ** Further properties of stores and windows *)

Module Facts.
Import Sqlite DatabaseManager App.

(** No two rows share a [sort_order]. *)
Definition orders_unique (rs : list Row) : Prop := NoDup (map sort_order rs).

(** [id] is a primary key. *)
Definition ids_unique (rs : list Row) : Prop := NoDup (map id rs).

(** No stored term is empty. *)
Definition no_empty_term (db : DB) : Prop :=
  match dictionary db with
  | Some t => Forall (fun r => term r <> "") (rows t)
  | None => True
  end.

(** The five columns an entry is made of. *)
Definition fields_of (r : Row) : string * string * string * string * string :=
  (term r, pronunciation r, pos r, meaning r, example r).

(** A row with another [sort_order]. *)
Definition with_sort_order (r : Row) (o : Z) : Row :=
  mkRow (id r) (term r) (pronunciation r) (pos r) (meaning r) (example r) o.

(** The lines of the list box are those of [display_items]. *)
Definition aligned (st : State) : Prop :=
  listbox st = map display_str (display_items st).

(** The words of the links among the inserts. *)
Fixpoint link_words (l : list Span) : list string :=
  match l with
  | [] => []
  | Plain _ :: l' => link_words l'
  | Link w :: l' => w :: link_words l'
  end.

(** The rows a new table holds after the entries of [l] were upserted one
    by one, all with new keys, when [k] rows went before. *)
Fixpoint numbered (k : Z) (l : list Row) : list Row :=
  match l with
  | [] => []
  | r :: l' =>
      mkRow (k + 1) (term r) (pronunciation r) (pos r) (meaning r)
            (example r) (k + 1) :: numbered (k + 1) l'
  end.

(** The exchange of two values. *)
Definition exchange (x y v : Z) : Z :=
  if Z.eqb v x then y else if Z.eqb v y then x else v.

(** Every selected index is an index of the list box. *)
Definition selection_valid (st : State) : Prop :=
  Forall (fun i => (i < List.length (listbox st))%nat) (curselection st).

(** The list box, its selection and [display_items] fit together. *)
Definition window_ok (st : State) : Prop := aligned st /\ selection_valid st.

(** The two UPDATE statements of a swap on one row. *)
Definition swapped (a b r : Row) : Row :=
  update_sort_order (sort_order a) (id b)
    (update_sort_order (sort_order b) (id a) r).

(** A string of blanks only, the empty one among them. *)
Definition blank (s : string) : Prop :=
  Forall (fun c => Str.isspace c = true) (list_ascii_of_string s).

(** A value as the TEXT columns hold it. *)
Definition text (v : Json.Value) : string :=
  match v with
  | Json.Str s => s
  | Json.Int z => Str.of_int z
  end.



(** The items the loop of [import_json_logic] does not pass over. *)
Definition kept (items : list Json.Object) : list Json.Object :=
  filter (fun item => Json.truthy (Json.term_of item)) items.

(** A member of the object form as a record of the list form: the name of
    the member is its term. *)
Definition member_item (kv : string * Json.Object) : Json.Object :=
  ("term", Json.Str (fst kv)) :: snd kv.

(** The words a click in the detail pane can lead to, for a text. *)
Definition links_of (text : string) : list string :=
  link_words (ExtractLinks text).

End Facts.

Import Settings Facts.

(** * Lemmas on the storage model *)

Section StorageLemmas.

Lemma eqb_where_term_pos (t p : string) (r : Row) :
  where_term_pos t p r = true <-> key r = (t, p).
Proof.
  unfold where_term_pos, key. rewrite andb_true_iff, !String.eqb_eq.
  split; [intros [-> ->]; reflexivity | intros H; inversion H; auto].
Qed.


Lemma filter_nil_not_in (t p : string) (rs : list Row) :
  filter (where_term_pos t p) rs = [] -> ~ In (t, p) (map key rs).
Proof.
  induction rs as [|r rs IH]; simpl; [tauto|].
  destruct (where_term_pos t p r) eqn:E; [discriminate|].
  intros H [K|K]; [|exact (IH H K)].
  apply eqb_where_term_pos in K. congruence.
Qed.

Lemma filter_nil_existsb (t p : string) (rs : list Row) :
  filter (where_term_pos t p) rs = [] ->
  existsb (where_term_pos t p) rs = false.
Proof.
  induction rs as [|r rs IH]; simpl; [reflexivity|].
  destruct (where_term_pos t p r); [discriminate|]. exact IH.
Qed.



Lemma NoDup_snoc {A : Type} (l : list A) (x : A) :
  NoDup l -> ~ In x l -> NoDup (l ++ [x]).
Proof.
  intros Hl Hx. apply NoDup_app; [exact Hl|repeat constructor; simpl; tauto|].
  intros a Ha [<-|[]]. exact (Hx Ha).
Qed.



Lemma max_sort_order_none (rs : list Row) :
  max_sort_order rs = None <-> rs = [].
Proof.
  destruct rs as [|r rs]; simpl; [tauto|].
  destruct (max_sort_order rs); split; congruence.
Qed.

Lemma max_sort_order_some (rs : list Row) (m : Z) :
  max_sort_order rs = Some m ->
  (exists x, In x rs /\ sort_order x = m) /\
  (forall x, In x rs -> sort_order x <= m).
Proof.
  revert m. induction rs as [|r rs IH]; simpl; [discriminate|].
  intros m. destruct (max_sort_order rs) as [m'|] eqn:E.
  - intros [= <-]. destruct (IH m' eq_refl) as [(x & Hx & Ex) Hle]. split.
    + destruct (Z.max_spec (sort_order r) m') as [[_ ->]|[_ ->]];
        [exists x; auto | exists r; auto].
    + intros y [<-|Hy]; [lia|]. specialize (Hle y Hy). lia.
  - intros [= <-]. apply max_sort_order_none in E. subst rs. split.
    + exists r. simpl. auto.
    + intros y [<-|[]]. lia.
Qed.



End StorageLemmas.

Section UpsertLemmas.



Lemma new_order_spec (rs : list Row) :
  let o := match max_sort_order rs with None => 1 | Some m => m + 1 end in
  (rs = [] -> o = 1) /\
  (rs <> [] ->
     (exists x, In x rs /\ o = sort_order x + 1) /\
     (forall x, In x rs -> sort_order x < o)).
Proof.
  simpl. destruct (max_sort_order rs) as [m|] eqn:E.
  - destruct (max_sort_order_some rs m E) as [(x & Hx & Ex) Hle]. split.
    + intros ->. discriminate.
    + intros _. split; [exists x; split; [exact Hx|lia]|].
      intros y Hy. specialize (Hle y Hy). lia.
  - apply max_sort_order_none in E. split; [reflexivity|congruence].
Qed.






End UpsertLemmas.

Section OrderLemmas.

Lemma row_eta (r : Row) :
  mkRow (id r) (term r) (pronunciation r) (pos r) (meaning r) (example r)
        (sort_order r) = r.
Proof. destruct r; reflexivity. Qed.

Lemma table_eta (t : Table) :
  mkTable (unique t) (rows t) (sqlite_sequence t) = t.
Proof. destruct t; reflexivity. Qed.

Lemma set_dictionary_same (db : DB) (t : Table) :
  dictionary db = Some t -> set_dictionary db (Some t) = db.
Proof. destruct db; simpl; intros ->; reflexivity. Qed.

(** [id] is the primary key: a stored row is known by it. *)
Lemma row_by_id (rs : list Row) (r a : Row) :
  NoDup (map id rs) -> In r rs -> In a rs -> id r = id a -> r = a.
Proof.
  induction rs as [|x rs IH]; simpl; [tauto|].
  intros Hn Hr Ha E. inversion Hn as [|? ? Hx Hn']; subst.
  destruct Hr as [->|Hr], Ha as [->|Ha]; auto.
  - exfalso. apply Hx. rewrite E. apply in_map. exact Ha.
  - exfalso. apply Hx. rewrite <- E. apply in_map. exact Hr.
Qed.

Lemma reordered_update_order (id1 o1 id2 o2 : Z) (rs : list Row) :
  Forall2 (reordered id1 id2) rs
    (map (update_sort_order o2 id2) (map (update_sort_order o1 id1) rs)).
Proof.
  induction rs as [|r rs IH]; simpl; constructor; [|exact IH].
  unfold reordered, update_sort_order, where_id. simpl.
  destruct (Z.eqb_spec (id r) id1) as [E1|E1]; simpl;
    destruct (Z.eqb_spec (id r) id2) as [E2|E2]; simpl;
    repeat split; try reflexivity; intros; congruence.
Qed.

(** Swapping back row by row. *)
Lemma swap_back_row (rs : list Row) (a b r : Row) :
  NoDup (map id rs) -> In a rs -> In b rs -> In r rs ->
  update_sort_order (sort_order b) (id b)
    (update_sort_order (sort_order a) (id a)
       (update_sort_order (sort_order a) (id b)
          (update_sort_order (sort_order b) (id a) r))) = r.
Proof.
  intros Hn Ha Hb Hr.
  destruct (Z.eq_dec (id r) (id a)) as [Ea|Ea].
  - assert (r = a) by (apply (row_by_id rs); assumption). subst r.
    destruct (Z.eq_dec (id a) (id b)) as [Eb|Eb].
    + assert (a = b) by (apply (row_by_id rs); assumption). subst b.
      unfold update_sort_order, where_id. simpl.
      repeat (rewrite ?Z.eqb_refl; simpl). apply row_eta.
    + apply Z.eqb_neq in Eb.
      unfold update_sort_order, where_id. simpl.
      repeat (rewrite ?Z.eqb_refl, ?Eb; simpl). apply row_eta.
  - apply Z.eqb_neq in Ea.
    destruct (Z.eq_dec (id r) (id b)) as [Eb|Eb].
    + assert (r = b) by (apply (row_by_id rs); assumption). subst r.
      unfold update_sort_order, where_id. simpl.
      repeat (rewrite ?Z.eqb_refl, ?Ea; simpl). apply row_eta.
    + apply Z.eqb_neq in Eb.
      unfold update_sort_order, where_id. simpl.
      repeat (rewrite ?Ea, ?Eb; simpl). reflexivity.
Qed.

Lemma swap_back_rows (rs : list Row) (a b : Row) :
  NoDup (map id rs) -> In a rs -> In b rs ->
  map (update_sort_order (sort_order b) (id b))
    (map (update_sort_order (sort_order a) (id a))
       (map (update_sort_order (sort_order a) (id b))
          (map (update_sort_order (sort_order b) (id a)) rs))) = rs.
Proof.
  intros Hn Ha Hb. rewrite !map_map.
  rewrite <- (map_id rs) at 2. apply map_ext_in.
  intros r Hr. apply (swap_back_row rs); assumption.
Qed.

(** What the first swap does to the two rows. *)
Lemma swap_rows_in (rs : list Row) (a b : Row) :
  id a <> id b -> In a rs -> In b rs ->
  let rs' := map (update_sort_order (sort_order a) (id b))
               (map (update_sort_order (sort_order b) (id a)) rs) in
  In (mkRow (id a) (term a) (pronunciation a) (pos a) (meaning a) (example a)
            (sort_order b)) rs' /\
  In (mkRow (id b) (term b) (pronunciation b) (pos b) (meaning b) (example b)
            (sort_order a)) rs'.
Proof.
  intros Hab Ha Hb rs'. subst rs'. rewrite map_map. split.
  - apply in_map_iff. exists a. split; [|exact Ha].
    unfold update_sort_order, where_id. simpl. rewrite Z.eqb_refl. simpl.
    destruct (Z.eqb_spec (id a) (id b)); [congruence|reflexivity].
  - apply in_map_iff. exists b. split; [|exact Hb].
    unfold update_sort_order, where_id. simpl.
    destruct (Z.eqb_spec (id b) (id a)); [congruence|]. simpl.
    rewrite Z.eqb_refl. reflexivity.
Qed.

End OrderLemmas.

Section SortLemmas.

Lemma insert_sorted_perm (r : Row) (l : list Row) :
  Permutation (insert_sorted r l) (r :: l).
Proof.
  induction l as [|x l IH]; simpl; [reflexivity|].
  destruct (sort_order r <=? sort_order x); [reflexivity|].
  rewrite IH. apply perm_swap.
Qed.

Lemma order_by_sort_order_perm (l : list Row) :
  Permutation (order_by_sort_order l) l.
Proof.
  induction l as [|r l IH]; simpl; [reflexivity|].
  rewrite insert_sorted_perm. constructor. exact IH.
Qed.

Lemma insert_sorted_ascending (r : Row) (l : list Row) :
  ascending l -> ascending (insert_sorted r l).
Proof.
  unfold ascending. induction l as [|x l IH]; simpl; intros Hs.
  - repeat constructor.
  - inversion Hs as [|? ? Hl Hx]; subst.
    destruct (Z.leb_spec (sort_order r) (sort_order x)) as [Hle|Hgt].
    + constructor; [exact Hs|]. constructor; [exact Hle|].
      eapply Forall_impl; [|exact Hx]. simpl. intros; lia.
    + constructor; [exact (IH Hl)|].
      apply (Permutation_Forall (Permutation_sym (insert_sorted_perm r l))).
      constructor; [lia|exact Hx].
Qed.

Lemma order_by_sort_order_ascending (l : list Row) :
  ascending (order_by_sort_order l).
Proof.
  induction l as [|r l IH]; simpl; [constructor|].
  apply insert_sorted_ascending. exact IH.
Qed.

(** A list in order comes out of the sort as it went in. *)
Lemma order_by_sort_order_fixed (l : list Row) :
  ascending l -> order_by_sort_order l = l.
Proof.
  unfold ascending. induction l as [|r l IH]; simpl; intros Hs; [reflexivity|].
  inversion Hs as [|? ? Hl Hr]; subst. rewrite (IH Hl).
  destruct l as [|x l]; simpl; [reflexivity|].
  inversion Hr as [|? ? Hx _]; subst.
  destruct (Z.leb_spec (sort_order r) (sort_order x)); [reflexivity|lia].
Qed.

(** The results of [get_all_words] are the arrangements of the stored
    rows that ascend in [sort_order]. *)
Lemma get_all_words_iff (db : DB) (t : Table) (l : list Row) :
  dictionary db = Some t ->
  (get_all_words db l <-> Permutation l (rows t) /\ ascending l).
Proof.
  intros Hd. split.
  - intros H. destruct H as [t' scan Hd' Hp]. rewrite Hd in Hd'.
    injection Hd' as <-. split.
    + rewrite order_by_sort_order_perm. exact Hp.
    + apply order_by_sort_order_ascending.
  - intros [Hp Hs]. rewrite <- (order_by_sort_order_fixed l Hs).
    exact (fetchall db t l Hd Hp).
Qed.


End SortLemmas.

(** * Lemmas on text and on the list filter *)

Section TextLemmas.

Lemma append_nil_r (s : string) : s ++ "" = s.
Proof. induction s as [|c s IH]; simpl; [reflexivity|]. rewrite IH. reflexivity. Qed.

Lemma append_assoc (a b c : string) : (a ++ b) ++ c = a ++ b ++ c.
Proof. induction a as [|x a IH]; simpl; [reflexivity|]. rewrite IH. reflexivity. Qed.




Lemma is_empty_spec (q : string) : Text.is_empty q = true <-> q = "".
Proof. destruct q; simpl; split; congruence. Qed.

End TextLemmas.

Section FilterLemmas.

Lemma refresh_loop_filter (mode : SearchMode) (query : string)
      (items : list Row) (lines : list string) (shown : list Row) :
  refresh_loop mode query items lines shown =
    ((lines ++ map display_str (filter (matches mode query) items))%list,
     (shown ++ filter (matches mode query) items)%list).
Proof.
  revert lines shown. induction items as [|item rest IH]; intros; simpl.
  - rewrite !app_nil_r. reflexivity.
  - destruct (matches mode query item); [|apply IH].
    rewrite IH. simpl. rewrite <- !app_assoc. reflexivity.
Qed.

Lemma Filter_filter (all : list Row) (query : string) (mode : SearchMode) :
  Filter all query mode = filter (matches mode (Text.lower query)) all.
Proof. unfold Filter. rewrite refresh_loop_filter. reflexivity. Qed.


Lemma filter_all {A : Type} (f : A -> bool) (l : list A) :
  (forall x, f x = true) -> filter f l = l.
Proof.
  intros H. induction l as [|x l IH]; simpl; [reflexivity|].
  rewrite H, IH. reflexivity.
Qed.



End FilterLemmas.

(** * Lemmas on the link scanner *)

Section LinkLemmas.

Lemma lazy_group_sound (s w : string) :
  lazy_group s = Some w ->
  exists r : string, s = w ++ String Text.rbracket r /\ clean_word w.
Proof.
  revert w. induction s as [|c s IH]; simpl; [discriminate|]. intros w.
  destruct (Ascii.eqb_spec c Text.rbracket) as [->|Hr].
  - intros [= <-]. exists s. split; [reflexivity|]. split; reflexivity.
  - destruct (Ascii.eqb_spec c Text.newline) as [->|Hn]; [discriminate|].
    destruct (lazy_group s) as [w'|]; [|discriminate].
    intros [= <-]. destruct (IH w' eq_refl) as (r & -> & Hc1 & Hc2).
    exists r. split; [reflexivity|]. unfold clean_word. simpl.
    apply Ascii.eqb_neq in Hr, Hn. rewrite Hr, Hn. split; assumption.
Qed.

Lemma lazy_group_complete (w r : string) :
  clean_word w -> lazy_group (w ++ String Text.rbracket r) = Some w.
Proof.
  unfold clean_word. induction w as [|c w IH]; simpl; [reflexivity|].
  intros [H1 H2]. apply orb_false_iff in H1, H2.
  destruct H1 as [E1 H1], H2 as [E2 H2]. rewrite E1, E2, IH; auto.
Qed.

Lemma match_here_sound (s w : string) :
  match_here s = Some w ->
  exists r : string, s = bracketed w r /\ clean_word w.
Proof.
  destruct s as [|c s]; simpl; [discriminate|].
  destruct (Ascii.eqb_spec c Text.lbracket) as [->|]; [|discriminate].
  intros H. apply lazy_group_sound in H. destruct H as (r & -> & H).
  exists r. split; [reflexivity|exact H].
Qed.

Lemma match_here_complete (w r : string) :
  clean_word w -> match_here (bracketed w r) = Some w.
Proof. intros H. simpl. apply lazy_group_complete. exact H. Qed.

Lemma match_here_none (s : string) :
  match_here s = None <-> ~ starts_link clean_word s.
Proof.
  split.
  - intros H (w & r & -> & Hw). rewrite match_here_complete in H;
      [discriminate|exact Hw].
  - intros H. destruct (match_here s) as [w|] eqn:E; [|reflexivity].
    exfalso. apply H. apply match_here_sound in E.
    destruct E as (r & E & Hw). exists w, r. auto.
Qed.

(** The characters of a match are passed over. *)
Lemma link_spans_skip (w : string) (x : ascii) (r plain : string) :
  link_spans (w ++ String x r) (S (String.length w)) plain =
  link_spans r O plain.
Proof. induction w as [|c w IH]; simpl; [reflexivity|exact IH]. Qed.

Lemma link_spans_match (w r plain : string) :
  clean_word w ->
  link_spans (bracketed w r) O plain =
  Plain plain :: Link w :: link_spans r O "".
Proof.
  intros H. unfold bracketed.
  change (link_spans (String Text.lbracket (w ++ String Text.rbracket r))
            O plain)
    with (match match_here (bracketed w r) with
          | Some link_word =>
              Plain plain :: Link link_word ::
              link_spans (w ++ String Text.rbracket r)
                (S (String.length link_word)) ""
          | None => link_spans (w ++ String Text.rbracket r) O
                      (plain ++ String Text.lbracket "")
          end).
  rewrite (match_here_complete w r H), link_spans_skip. reflexivity.
Qed.

Lemma link_spans_plain (c : ascii) (rest plain : string) :
  match_here (String c rest) = None ->
  link_spans (String c rest) O plain =
  link_spans rest O (plain ++ String c "").
Proof.
  intros H.
  change (link_spans (String c rest) O plain)
    with (match match_here (String c rest) with
          | Some link_word =>
              Plain plain :: Link link_word ::
              link_spans rest (S (String.length link_word)) ""
          | None => link_spans rest O (plain ++ String c "")
          end).
  rewrite H. reflexivity.
Qed.

Lemma length_bracketed (w r : string) :
  (String.length r < String.length (bracketed w r))%nat.
Proof.
  unfold bracketed. simpl. induction w as [|c w IH]; simpl; lia.
Qed.

Lemma append_snoc_cases (p a b : string) (c : ascii) :
  p ++ String c "" = a ++ b -> b <> "" ->
  exists b0 : string, b = b0 ++ String c "" /\ p = a ++ b0.
Proof.
  revert a. induction p as [|x p IH]; intros a H Hb; simpl in H.
  - destruct a as [|y a]; simpl in H.
    + exists "". subst b. split; reflexivity.
    + injection H as _ H. destruct a; simpl in H; [|discriminate].
      subst b. congruence.
  - destruct a as [|y a]; simpl in H.
    + exists (String x p). subst b. split; reflexivity.
    + injection H as <- H. destruct (IH a H Hb) as (b0 & -> & ->).
      exists b0. split; reflexivity.
Qed.

(** [link_spans] splits the text it is given, with the plain text before
    it, where no link begins, kept in front. *)
Lemma link_spans_split (n : nat) :
  forall s plain : string,
    (String.length s <= n)%nat ->
    (forall a b : string,
       plain = a ++ b -> b <> "" -> ~ starts_link clean_word (b ++ s)) ->
    split_on clean_word (plain ++ s) (link_spans s O plain).
Proof.
  induction n as [|n IH]; intros s plain Hlen Hun.
  - destruct s; [|simpl in Hlen; lia]. simpl. rewrite append_nil_r.
    apply split_plain. intros a b E. destruct b as [|c b].
    + intros (w & r & H & _). discriminate.
    + specialize (Hun a (String c b) E). rewrite append_nil_r in Hun.
      apply Hun. discriminate.
  - destruct s as [|c rest].
    + simpl. rewrite append_nil_r.
      apply split_plain. intros a b E. destruct b as [|c b].
      * intros (w & r & H & _). discriminate.
      * specialize (Hun a (String c b) E). rewrite append_nil_r in Hun.
        apply Hun. discriminate.
    + destruct (match_here (String c rest)) as [w|] eqn:M.
      * destruct (match_here_sound _ _ M) as (r & E & Hw). rewrite E in *.
        rewrite (link_spans_match w r plain Hw).
        apply split_link; [exact Hw | exact Hun |].
        apply (IH r ""); [|intros a b H Hb; destruct a, b; try discriminate;
                             congruence].
        pose proof (length_bracketed w r). lia.
      * rewrite (link_spans_plain c rest plain M).
        replace (plain ++ String c rest)
          with ((plain ++ String c "") ++ rest)
          by (rewrite append_assoc; reflexivity).
        apply IH; [simpl in Hlen; lia|].
        intros a b E Hb.
        destruct (append_snoc_cases plain a b c E Hb) as (b0 & -> & ->).
        rewrite append_assoc. simpl.
        destruct b0 as [|y b0]; simpl.
        -- apply match_here_none. exact M.
        -- apply (Hun a (String y b0) eq_refl). discriminate.
Qed.

Lemma ExtractLinks_split (text : string) :
  split_on clean_word text (ExtractLinks text).
Proof.
  apply (link_spans_split (String.length text) text "" (le_n _)).
  intros a b H Hb. destruct a, b; try discriminate. congruence.
Qed.

(** Putting the brackets back gives the text. *)
Lemma split_on_source_text (ok : string -> Prop) (text : string)
      (l : list Span) :
  split_on ok text l -> source_text l = text.
Proof.
  induction 1 as [p _|p w r l _ _ _ IH]; simpl.
  - apply append_nil_r.
  - rewrite IH. reflexivity.
Qed.

End LinkLemmas.

Section LinkUnique.

Lemma link_spans_pass (p : string) :
  forall s acc : string,
    (forall a b : string,
       p = a ++ b -> b <> "" -> ~ starts_link clean_word (b ++ s)) ->
    link_spans (p ++ s) O acc = link_spans s O (acc ++ p).
Proof.
  induction p as [|c p IH]; intros s acc Hun.
  - simpl. rewrite append_nil_r. reflexivity.
  - change (String c p ++ s) with (String c (p ++ s)).
    rewrite link_spans_plain.
    + rewrite IH.
      * rewrite append_assoc. reflexivity.
      * intros a b E Hb. apply (Hun (String c a) b); [|exact Hb].
        simpl. rewrite E. reflexivity.
    + apply match_here_none. apply (Hun "" (String c p) eq_refl). discriminate.
Qed.

(** The split is the one [ExtractLinks] computes. *)
Lemma split_on_unique (text : string) (l : list Span) :
  split_on clean_word text l -> l = ExtractLinks text.
Proof.
  unfold ExtractLinks. induction 1 as [p Hp|p w r l Hw Hp _ IH].
  - rewrite <- (append_nil_r p) at 2. rewrite link_spans_pass.
    + reflexivity.
    + intros a b E _. rewrite append_nil_r. exact (Hp a b E).
  - rewrite (link_spans_pass p _ "" Hp). change ("" ++ p) with p.
    rewrite (link_spans_match w r p Hw), <- IH. reflexivity.
Qed.

End LinkUnique.

Section IdentityLemmas.




End IdentityLemmas.

(** * Lemmas on the migration of version 5.0 *)

Section CopyLemmas.

Lemma max_id_app (rs : list Row) (r : Row) :
  max_id (rs ++ [r]) = Z.max (max_id rs) (Z.max (id r) 0).
Proof.
  unfold max_id. induction rs as [|x rs IH]; simpl; [lia|].
  rewrite IH. lia.
Qed.

Lemma max_id_nonneg (rs : list Row) : 0 <= max_id rs.
Proof. unfold max_id. induction rs as [|x rs IH]; simpl; lia. Qed.

Lemma not_in_key_existsb (r : Row) (rs : list Row) :
  ~ In (key r) (map key rs) ->
  existsb (where_term_pos (term r) (pos r)) rs = false.
Proof.
  intros H. apply not_true_is_false. intros E.
  apply existsb_exists in E. destruct E as (x & Hx & Ex).
  apply eqb_where_term_pos in Ex. apply H. unfold key at 1. rewrite <- Ex.
  apply in_map. exact Hx.
Qed.

(** The copy into a table under [UNIQUE(term, pos)] goes through when the
    keys stay distinct, and numbers the rows on from the counter. *)
Lemma insert_all_ok (src : list Row) :
  forall (t : Table) (k : Z),
    unique t = UniqueTermPos -> sqlite_sequence t = k ->
    max_id (rows t) <= k ->
    NoDup (map key (rows t) ++ map key src) ->
    insert_all t src =
      Ok (mkTable UniqueTermPos (rows t ++ renumber k src)
                  (k + Z.of_nat (List.length src))).
Proof.
  induction src as [|r src IH]; intros t k Hu Hs Hm Hn.
  - simpl. rewrite app_nil_r, Z.add_0_r, <- Hu, <- Hs. rewrite table_eta.
    reflexivity.
  - cbn [insert_all]. unfold insert_row. rewrite Hu. cbn [conflicts].
    rewrite not_in_key_existsb.
    2:{ apply NoDup_remove_2 in Hn. intros H. apply Hn.
        apply in_or_app. left. exact H. }
    assert (Hnext : next_id t = k + 1) by (unfold next_id; lia).
    rewrite Hnext.
    rewrite (IH _ (k + 1)).
    + cbn [rows]. rewrite <- app_assoc. cbn [renumber app List.length].
      f_equal. f_equal. lia.
    + reflexivity.
    + reflexivity.
    + cbn [rows]. rewrite max_id_app. cbn [id].
      pose proof (max_id_nonneg (rows t)). lia.
    + cbn [rows]. rewrite map_app. cbn [map]. rewrite <- app_assoc.
      exact Hn.
Qed.

(** Whatever the constraint, a copy that goes through takes every column
    but [id] over, row by row. *)
Lemma insert_all_content (src : list Row) :
  forall t t' : Table,
    insert_all t src = Ok t' ->
    map content_of (rows t') = map content_of (rows t ++ src) /\
    unique t' = unique t.
Proof.
  induction src as [|r src IH]; intros t t'; cbn [insert_all].
  - intros [= <-]. rewrite app_nil_r. auto.
  - unfold insert_row. destruct (conflicts _ _ _ _); [discriminate|].
    intros H. apply IH in H. cbn [rows unique] in H. destruct H as [H ->].
    split; [|reflexivity]. rewrite H, <- app_assoc, !map_app. reflexivity.
Qed.

Lemma renumber_content (src : list Row) (k : Z) :
  map content_of (renumber k src) = map content_of src.
Proof.
  revert k. induction src as [|r src IH]; intros k; simpl; [reflexivity|].
  rewrite IH. reflexivity.
Qed.

Lemma renumber_key (src : list Row) (k : Z) :
  map key (renumber k src) = map key src.
Proof.
  revert k. induction src as [|r src IH]; intros k; simpl; [reflexivity|].
  rewrite IH. reflexivity.
Qed.

Lemma renumber_length (src : list Row) (k : Z) :
  List.length (renumber k src) = List.length src.
Proof.
  revert k. induction src as [|r src IH]; intros k; simpl; [reflexivity|].
  rewrite IH. reflexivity.
Qed.

Lemma renumber_id (src : list Row) (k : Z) :
  map id (renumber k src) =
  map (fun i => k + Z.of_nat i) (List.seq 1 (List.length src)).
Proof.
  revert k. induction src as [|r src IH]; intros k; simpl; [reflexivity|].
  f_equal. rewrite IH, <- (seq_shift (List.length src) 1), map_map.
  apply map_ext. intros i. lia.
Qed.

Lemma renumber_twice (src : list Row) (k j : Z) :
  renumber k (renumber j src) = renumber k src.
Proof.
  revert k j. induction src as [|r src IH]; intros k j; simpl; [reflexivity|].
  rewrite IH. reflexivity.
Qed.

Lemma NoDup_term_key (rs : list Row) :
  NoDup (map term rs) -> NoDup (map key rs).
Proof.
  intros H. apply (NoDup_map_inv fst). rewrite map_map. exact H.
Qed.

End CopyLemmas.

Section MigrationRuns.

Import V5.

(** The four runs of [migrate_db]: a file without [dictionary]; a file
    with a leftover [dictionary_old]; a copy that goes through; a copy that
    fails. *)
Lemma v5_new_file (db : DB) :
  dictionary db = None ->
  migrate_db db =
    mkConn (create_dictionary (create_settings db)) None
      [Done CreateSettings; Done SelectMaster; Done CreateDictionary;
       Commit; Commit].
Proof.
  destruct db as [d o s m]. simpl. intros ->. destruct s; reflexivity.
Qed.

Lemma v5_rename_fails (db : DB) (t old : Table) :
  dictionary db = Some t -> dictionary_old db = Some old ->
  migrate_db db =
    mkConn (create_settings db) None
      [Done CreateSettings; Done SelectMaster;
       Failed RenameToOld OperationalError; Caught OperationalError;
       Commit; Commit].
Proof.
  destruct db as [d o s m]. simpl. intros -> ->. destruct s; reflexivity.
Qed.

Lemma v5_copy_ok (db : DB) (t t' : Table) :
  dictionary db = Some t -> dictionary_old db = None ->
  insert_all (mkTable UniqueTermPos [] 0) (rows t) = Ok t' ->
  migrate_db db =
    mkConn (mkDB (Some t') None (settings (create_settings db))
                 (db_metadata db)) None
      [Done CreateSettings; Done SelectMaster; Done RenameToOld;
       Done CreateDictionary; Begin; Done CopyRows; Done DropOld;
       Commit; Commit].
Proof.
  destruct db as [d o s m]. simpl. intros -> -> H.
  destruct s; unfold migrate_db, try_except, and_then, _create_v2_4_table,
    execute_ddl, execute_dml, execute_query, copy_from_old; cbn;
    rewrite H; reflexivity.
Qed.

Lemma v5_copy_fails (db : DB) (t : Table) (e : sqlite_error) :
  dictionary db = Some t -> dictionary_old db = None ->
  insert_all (mkTable UniqueTermPos [] 0) (rows t) = Raise e ->
  migrate_db db =
    mkConn (mkDB (Some (mkTable UniqueTermPos [] 0)) (Some t)
                 (settings (create_settings db)) (db_metadata db)) None
      [Done CreateSettings; Done SelectMaster; Done RenameToOld;
       Done CreateDictionary; Begin; Failed CopyRows e; Caught e;
       Commit; Commit].
Proof.
  destruct db as [d o s m]. simpl. intros -> -> H.
  destruct s; unfold migrate_db, try_except, and_then, _create_v2_4_table,
    execute_ddl, execute_dml, execute_query, copy_from_old; cbn;
    rewrite H; reflexivity.
Qed.

(** Every run is one of the four. *)
Lemma v5_runs (db : DB) :
  (dictionary db = None /\
   trace (migrate_db db) =
     [Done CreateSettings; Done SelectMaster; Done CreateDictionary;
      Commit; Commit]) \/
  (exists t old, dictionary db = Some t /\ dictionary_old db = Some old /\
   migrated db = create_settings db /\
   trace (migrate_db db) =
     [Done CreateSettings; Done SelectMaster;
      Failed RenameToOld OperationalError; Caught OperationalError;
      Commit; Commit]) \/
  (exists t t', dictionary db = Some t /\ dictionary_old db = None /\
   insert_all (mkTable UniqueTermPos [] 0) (rows t) = Ok t' /\
   migrated db =
     mkDB (Some t') None (settings (create_settings db)) (db_metadata db) /\
   trace (migrate_db db) =
     [Done CreateSettings; Done SelectMaster; Done RenameToOld;
      Done CreateDictionary; Begin; Done CopyRows; Done DropOld;
      Commit; Commit]) \/
  (exists t e, dictionary db = Some t /\ dictionary_old db = None /\
   insert_all (mkTable UniqueTermPos [] 0) (rows t) = Raise e /\
   migrated db =
     mkDB (Some (mkTable UniqueTermPos [] 0)) (Some t)
          (settings (create_settings db)) (db_metadata db) /\
   trace (migrate_db db) =
     [Done CreateSettings; Done SelectMaster; Done RenameToOld;
      Done CreateDictionary; Begin; Failed CopyRows e; Caught e;
      Commit; Commit]).
Proof.
  unfold migrated.
  destruct (dictionary db) as [t|] eqn:Hd.
  - destruct (dictionary_old db) as [old|] eqn:Ho.
    + right. left. exists t, old.
      rewrite (v5_rename_fails db t old Hd Ho). auto.
    + destruct (insert_all (mkTable UniqueTermPos [] 0) (rows t))
        as [t'|e] eqn:Hi.
      * right. right. left. exists t, t'.
        rewrite (v5_copy_ok db t t' Hd Ho Hi). auto.
      * right. right. right. exists t, e.
        rewrite (v5_copy_fails db t e Hd Ho Hi). auto.
  - left. rewrite (v5_new_file db Hd). auto.
Qed.

End MigrationRuns.

(** Where an event can stand in a trace that is known. *)
Ltac find_event H pre :=
  destruct pre as [|? pre]; simpl in H;
  [ try discriminate H
  | first [ discriminate H
          | injection H as ? H; subst; find_event H pre ] ].

(** * The claims *)





(** C3.  Migration keeps the rows.  Take a file whose [dictionary] is a
    table of versions 2 to 4 with pairwise different terms, or a table
    already under [UNIQUE(term, pos)] with pairwise different keys.
    Version 5.0: after [migrate_db] the table has as many rows as before,
    in the same order, each with the term, pronunciation, part of speech,
    meaning, example and [sort_order] it had: none lost, none doubled.  When
    no [dictionary_old] was in the way the table is under
    [UNIQUE(term, pos)] and the ids are 1, 2, ... anew.  Every list
    [get_all_words] then returns has that many entries, with those columns,
    in ascending [sort_order].  Migrating a second time gives the same table
    once more.  Version 6.0: [migrate_db] leaves an existing table as it
    is, ids included. *)
Theorem C3_migration_keeps_rows (db : DB) (t : Table) :
  dictionary db = Some t ->
  (unique t = UniqueTerm /\ NoDup (map term (rows t))) \/
  (unique t = UniqueTermPos /\ NoDup (map key (rows t))) ->
  (exists t5 : Table,
     dictionary (V5.migrated db) = Some t5 /\
     map content_of (rows t5) = map content_of (rows t) /\
     (dictionary_old db = None ->
      unique t5 = UniqueTermPos /\
      map id (rows t5) = fresh_ids (List.length (rows t)) /\
      dictionary_old (V5.migrated db) = None) /\
     (forall l : list Row,
        get_all_words (V5.migrated db) l ->
        List.length l = List.length (rows t) /\
        Permutation (map content_of l) (map content_of (rows t)) /\
        ascending l) /\
     dictionary (V5.migrated (V5.migrated db)) = Some t5) /\
  dictionary (V6.migrate_db db) = Some t.
Proof.
  intros Hd Hk.
  assert (Hn : NoDup (map key (rows t))).
  { destruct Hk as [[_ H]|[_ H]]; [apply NoDup_term_key|]; exact H. }
  split.
  2:{ destruct db as [d o s m]. simpl in *. subst d. destruct m; reflexivity. }
  assert (Hlist : forall (d5 : DB) (t5 : Table),
             dictionary d5 = Some t5 ->
             map content_of (rows t5) = map content_of (rows t) ->
             forall l : list Row,
               get_all_words d5 l ->
               List.length l = List.length (rows t) /\
               Permutation (map content_of l) (map content_of (rows t)) /\
               ascending l).
  { intros d5 t5 H5 Hc l Hl. apply (get_all_words_iff d5 t5 l H5) in Hl.
    destruct Hl as [Hp Hs]. split; [|split; [|exact Hs]].
    - rewrite (Permutation_length Hp).
      rewrite <- (length_map content_of (rows t5)), Hc. apply length_map.
    - rewrite <- Hc. apply Permutation_map. exact Hp. }
  destruct (dictionary_old db) as [old|] eqn:Ho.
  - assert (E1 : V5.migrated db = create_settings db).
    { unfold V5.migrated. rewrite (v5_rename_fails db t old Hd Ho).
      reflexivity. }
    assert (Hd1 : dictionary (create_settings db) = Some t).
    { destruct db as [d o s m]. simpl in *. subst d. destruct s; reflexivity. }
    assert (Ho1 : dictionary_old (create_settings db) = Some old).
    { destruct db as [d o s m]. simpl in *. subst o. destruct s; reflexivity. }
    exists t. rewrite E1. split; [exact Hd1|]. split; [reflexivity|].
    split; [discriminate|]. split; [exact (Hlist _ t Hd1 eq_refl)|].
    unfold V5.migrated.
    rewrite (v5_rename_fails (create_settings db) t old Hd1 Ho1). simpl.
    destruct db as [d o s m]. simpl in *. subst d. destruct s; reflexivity.
  - pose proof (insert_all_ok (rows t) (mkTable UniqueTermPos [] 0) 0
                  eq_refl eq_refl (Z.le_refl 0) Hn) as Hi.
    cbn [rows app] in Hi. rewrite Z.add_0_l in Hi.
    set (t5 := mkTable UniqueTermPos (renumber 0 (rows t))
                       (Z.of_nat (List.length (rows t)))) in *.
    assert (E1 : V5.migrated db =
                 mkDB (Some t5) None (settings (create_settings db))
                      (db_metadata db)).
    { unfold V5.migrated. rewrite (v5_copy_ok db t t5 Hd Ho Hi). reflexivity. }
    assert (Hc : map content_of (rows t5) = map content_of (rows t))
      by apply renumber_content.
    set (d5 := mkDB (Some t5) None (settings (create_settings db))
                    (db_metadata db)) in *.
    exists t5. rewrite E1. split; [reflexivity|]. split; [exact Hc|].
    split; [|split; [exact (Hlist d5 t5 eq_refl Hc)|]].
    + intros _. split; [reflexivity|]. split; [|reflexivity].
      unfold fresh_ids. simpl. rewrite renumber_id. reflexivity.
    + assert (Hn5 : NoDup (map key (rows t5)))
        by (simpl; rewrite renumber_key; exact Hn).
      pose proof (insert_all_ok (rows t5) (mkTable UniqueTermPos [] 0) 0
                    eq_refl eq_refl (Z.le_refl 0) Hn5) as Hi5.
      cbn [rows app] in Hi5. rewrite Z.add_0_l in Hi5.
      unfold V5.migrated.
      rewrite (v5_copy_ok d5 t5 _ eq_refl eq_refl Hi5). simpl.
      rewrite renumber_twice, renumber_length. reflexivity.
Qed.

(** C3 at a file of version 4 with ids 3 and 7. *)
Lemma C3_witness :
  (exists t5 : Table,
     dictionary (V5.migrated store_legacy) = Some t5 /\
     map content_of (rows t5) = map content_of (rows table_legacy) /\
     (dictionary_old store_legacy = None ->
      unique t5 = UniqueTermPos /\
      map id (rows t5) = fresh_ids 2 /\
      dictionary_old (V5.migrated store_legacy) = None) /\
     (forall l : list Row,
        get_all_words (V5.migrated store_legacy) l ->
        List.length l = 2%nat /\
        Permutation (map content_of l) (map content_of (rows table_legacy)) /\
        ascending l) /\
     dictionary (V5.migrated (V5.migrated store_legacy)) = Some t5) /\
  dictionary (V6.migrate_db store_legacy) = Some table_legacy.
Proof.
  apply (C3_migration_keeps_rows store_legacy table_legacy).
  - reflexivity.
  - left. split; [reflexivity|].
    simpl. repeat constructor; simpl; intuition discriminate.
Defined.

(** C4 (as stated).  It has the DROP run only after the copy has
    committed.  In version 5.0 the INSERT opens the transaction and the DROP
    runs inside it; the one commit follows the DROP. *)
Lemma C4_drop_precedes_commit :
  V5.trace (V5.migrate_db store_two) =
    [V5.Done V5.CreateSettings; V5.Done V5.SelectMaster;
     V5.Done V5.RenameToOld; V5.Done V5.CreateDictionary; V5.Begin;
     V5.Done V5.CopyRows; V5.Done V5.DropOld; V5.Commit; V5.Commit] /\
  ~ drop_after_committed_copy (V5.trace (V5.migrate_db store_two)).
Proof.
  split; [reflexivity|]. intros H.
  destruct (H [V5.Done V5.CreateSettings; V5.Done V5.SelectMaster;
               V5.Done V5.RenameToOld; V5.Done V5.CreateDictionary;
               V5.Begin; V5.Done V5.CopyRows] [V5.Commit; V5.Commit] eq_refl)
    as (a & b & c & E).
  assert (Hin : In V5.Commit
                  (a ++ V5.Done V5.CopyRows :: b ++ V5.Commit :: c)).
  { apply in_or_app. right. right. apply in_or_app. right. left. reflexivity. }
  rewrite <- E in Hin. simpl in Hin. intuition discriminate.
Qed.

(** C4 (amended).  In every run of [migrate_db] of version 5.0 the DROP
    of the renamed table is executed only right after the copy statement
    has succeeded, in the transaction the copy opened and with no commit
    before it; the commit follows and leaves a [dictionary] that holds every
    row of the original, column for column but for [id].  When the copy
    fails, no DROP is tried at all and the original table, with all its
    rows, is still in the file under the name [dictionary_old]. *)
Theorem C4_drop_only_after_copy (db : DB) :
  (forall pre post : list V5.Event,
     V5.trace (V5.migrate_db db) = (pre ++ V5.Done V5.DropOld :: post)%list ->
     (exists pre' : list V5.Event,
        pre = (pre' ++ [V5.Begin; V5.Done V5.CopyRows])%list /\
        ~ In V5.Commit pre' /\ ~ In V5.Begin pre') /\
     post = [V5.Commit; V5.Commit] /\
     exists t t' : Table,
       dictionary db = Some t /\
       dictionary (V5.migrated db) = Some t' /\
       dictionary_old (V5.migrated db) = None /\
       map content_of (rows t') = map content_of (rows t)) /\
  (forall e : sqlite_error,
     In (V5.Failed V5.CopyRows e) (V5.trace (V5.migrate_db db)) ->
     ~ In (V5.Done V5.DropOld) (V5.trace (V5.migrate_db db)) /\
     (forall e' : sqlite_error,
        ~ In (V5.Failed V5.DropOld e') (V5.trace (V5.migrate_db db))) /\
     exists t : Table,
       dictionary db = Some t /\
       dictionary_old (V5.migrated db) = Some t).
Proof.
  destruct (v5_runs db)
    as [[Hd Ht]|[(t & old & Hd & Ho & Hm & Ht)
       |[(t & t' & Hd & Ho & Hi & Hm & Ht)|(t & e0 & Hd & Ho & Hi & Hm & Ht)]]];
    rewrite Ht, ?Hm; split.
  - intros pre post H. exfalso. find_event H pre.
  - intros e [H|[H|[H|[H|[H|[]]]]]]; discriminate H.
  - intros pre post H. exfalso. find_event H pre.
  - intros e [H|[H|[H|[H|[H|[H|[]]]]]]]; discriminate H.
  - intros pre post H. find_event H pre.
    injection H as <-. split; [|split; [reflexivity|]].
    + exists [V5.Done V5.CreateSettings; V5.Done V5.SelectMaster;
              V5.Done V5.RenameToOld; V5.Done V5.CreateDictionary].
      split; [reflexivity|]. split; simpl; intuition discriminate.
    + exists t, t'. split; [assumption|]. split; [reflexivity|].
      split; [reflexivity|].
      apply insert_all_content in Hi. destruct Hi as [Hi _]. exact Hi.
  - intros e H. exfalso. simpl in H. intuition discriminate.
  - intros pre post H. exfalso. find_event H pre.
  - intros e _. split; [|split].
    + simpl. intuition discriminate.
    + intros e'. simpl. intuition discriminate.
    + exists t. auto.
Qed.

(** C4 at a table whose copy fails and at one whose copy goes through. *)
Lemma C4_witness :
  (~ In (V5.Done V5.DropOld) (V5.trace (V5.migrate_db store_foreign)) /\
   (forall e' : sqlite_error,
      ~ In (V5.Failed V5.DropOld e')
           (V5.trace (V5.migrate_db store_foreign))) /\
   exists t : Table,
     dictionary store_foreign = Some t /\
     dictionary_old (V5.migrated store_foreign) = Some t) /\
  exists t t' : Table,
    dictionary store_two = Some t /\
    dictionary (V5.migrated store_two) = Some t' /\
    dictionary_old (V5.migrated store_two) = None /\
    map content_of (rows t') = map content_of (rows t).
Proof.
  split.
  - apply (proj2 (C4_drop_only_after_copy store_foreign) IntegrityError).
    simpl. auto 10.
  - apply (proj1 (C4_drop_only_after_copy store_two)
             [V5.Done V5.CreateSettings; V5.Done V5.SelectMaster;
              V5.Done V5.RenameToOld; V5.Done V5.CreateDictionary;
              V5.Begin; V5.Done V5.CopyRows] [V5.Commit; V5.Commit]).
    reflexivity.
Defined.





(** C7.  Swap is self-inverse.  For two stored entries [a] and [b] of a
    table whose [id] is its primary key, [update_order] with each entry
    given the other's [sort_order] succeeds and, when the two differ, leaves
    [a] with the [sort_order] of [b] and [b] with that of [a]; a second
    [update_order] with the values swapped back gives the store there was
    at the start.  No [update_order], whatever its arguments, changes the
    number of rows, any column but [sort_order], or any row whose [id] is
    neither of the two it names. *)
Theorem C7_swap_self_inverse (db : DB) (t : Table) (a b : Row) :
  dictionary db = Some t -> NoDup (map id (rows t)) ->
  In a (rows t) -> In b (rows t) ->
  (exists (db1 : DB) (t1 : Table),
     update_order db (id a) (sort_order b) (id b) (sort_order a) = Ok db1 /\
     dictionary db1 = Some t1 /\
     (id a <> id b ->
      In (mkRow (id a) (term a) (pronunciation a) (pos a) (meaning a)
                (example a) (sort_order b)) (rows t1) /\
      In (mkRow (id b) (term b) (pronunciation b) (pos b) (meaning b)
                (example b) (sort_order a)) (rows t1)) /\
     update_order db1 (id a) (sort_order a) (id b) (sort_order b) = Ok db) /\
  (forall id1 order1 id2 order2 : Z,
     exists rs' : list Row,
       update_order db id1 order1 id2 order2 =
         Ok (set_dictionary db
               (Some (mkTable (unique t) rs' (sqlite_sequence t)))) /\
       Forall2 (reordered id1 id2) (rows t) rs').
Proof.
  intros Hd Hn Ha Hb. split.
  - unfold update_order at 1. rewrite Hd.
    eexists. eexists. split; [reflexivity|]. split; [reflexivity|]. split.
    + intros Hab. apply swap_rows_in; assumption.
    + unfold update_order. simpl. unfold map_rows. simpl.
      rewrite (swap_back_rows (rows t) a b Hn Ha Hb), table_eta.
      rewrite <- (set_dictionary_same db t Hd) at 2. reflexivity.
  - intros id1 order1 id2 order2. unfold update_order. rewrite Hd.
    eexists. split; [reflexivity|]. apply reordered_update_order.
Qed.

(** C7 at a store with two entries, at [sort_order] 1 and 2. *)
Lemma C7_witness :
  (exists (db1 : DB) (t1 : Table),
     update_order store_two 1 2 2 1 = Ok db1 /\
     dictionary db1 = Some t1 /\
     (1 <> 2 ->
      In (mkRow 1 "run" "" "V(動詞)" "to move fast, see [sprint]" "" 2)
         (rows t1) /\
      In (mkRow 2 "run" "" "N(名詞)" "a single execution" "" 1) (rows t1)) /\
     update_order db1 1 1 2 2 = Ok store_two) /\
  (forall id1 order1 id2 order2 : Z,
     exists rs' : list Row,
       update_order store_two id1 order1 id2 order2 =
         Ok (set_dictionary store_two (Some (mkTable UniqueTermPos rs' 2))) /\
       Forall2 (reordered id1 id2) (rows table_two) rs').
Proof.
  apply (C7_swap_self_inverse store_two table_two row_run_v row_run_n).
  - reflexivity.
  - simpl. repeat constructor; simpl; intuition discriminate.
  - simpl. auto.
  - simpl. auto.
Defined.

(** C8 (as stated).  It takes the word of a link to be any run without a
    closing bracket.  The pattern's dot stops at a line break: a bracketed
    run with a newline in it is no link for [ExtractLinks], which inserts
    the whole text as plain. *)
Lemma C8_newline_is_no_link :
  ExtractLinks two_lines = [Plain two_lines] /\
  ~ split_on no_rbracket two_lines (ExtractLinks two_lines).
Proof.
  split; [reflexivity|].
  change (ExtractLinks two_lines) with [Plain two_lines].
  intros H. inversion H as [p Hp E1 E2|]; subst.
  apply (Hp "see " ("[black" ++ nl ++ "cat]") eq_refl).
  exists ("black" ++ nl ++ "cat"), "". split; reflexivity.
Qed.

(** C8 (amended).  [ExtractLinks] splits every text at the matches of
    the pattern: an opening bracket, the shortest run of characters with
    neither a closing bracket nor a newline in it, a closing bracket.  The
    result alternates plain text and link words, from the leftmost link on,
    with no link beginning inside a plain text; it is the only such split;
    each link word is the text between its brackets, so that putting the
    brackets back gives the text again; and the text of the example yields
    the five spans. *)
Theorem C8_extract_links (text : string) :
  split_on clean_word text (ExtractLinks text) /\
  (forall l : list Span, split_on clean_word text l -> l = ExtractLinks text) /\
  source_text (ExtractLinks text) = text /\
  ExtractLinks "See [cat] and [dog]." =
    [Plain "See "; Link "cat"; Plain " and "; Link "dog"; Plain "."].
Proof.
  split; [apply ExtractLinks_split|].
  split; [apply split_on_unique|].
  split; [|reflexivity].
  apply (split_on_source_text clean_word). apply ExtractLinks_split.
Qed.

(** C9 (as stated).  It has a navigation with an empty result report a
    link-not-found notice.  [jump_to_word_filter] writes the one line it
    writes for every navigation and nothing else: following [sprint] over
    the entries [cat] and [dog] leaves an empty list and no such notice. *)
Lemma C9_no_not_found_notice :
  display_items (jump_to_word_filter [row_cat; row_dog] start "sprint") = [] /\
  log_text (jump_to_word_filter [row_cat; row_dog] start "sprint") =
    [(info, "Filtered by link: sprint")] /\
  existsb says_not_found
    (log_text (jump_to_word_filter [row_cat; row_dog] start "sprint")) = false.
Proof. repeat split. Qed.

(** C9 (amended).  For every link word and every list that
    [get_all_words] returned, [jump_to_word_filter] puts the word in the
    search box, sets the mode to [mode_contains] and replaces the visible
    list by the result of [Filter] for that word and mode.  When the result
    is not empty its first entry becomes the selection and is shown in the
    detail pane.  When it is empty nothing is selected and the detail pane
    stays as it was.  In both cases the log gains the one line
    [Filtered by link: word] at level [info], and no exception is raised. *)
Theorem C9_navigate (fetched : list Row) (st : State) (word : string) :
  let st' := jump_to_word_filter fetched st word in
  let result := Filter fetched word mode_contains in
  entry_search st' = word /\ search_mode st' = mode_contains /\
  data_cache st' = fetched /\
  display_items st' = result /\
  listbox st' = map display_str result /\
  log_text st' =
    (log_text st ++ [(info, ("Filtered by link: " ++ word)%string)])%list /\
  match result with
  | first :: _ =>
      curselection st' = [0%nat] /\
      lbl_detail_term st' = term first /\
      detail_text st' = ExtractLinks (content first)
  | [] =>
      curselection st' = [] /\
      lbl_detail_term st' = lbl_detail_term st /\
      detail_text st' = detail_text st
  end.
Proof.
  unfold jump_to_word_filter, refresh_list, log. cbn [search_mode].
  rewrite Filter_filter, refresh_loop_filter. cbn [fst snd app listbox].
  destruct (filter (matches mode_contains (Text.lower word)) fetched)
    as [|first rest]; cbn; repeat split; reflexivity.
Qed.



(** * Further lemmas on the store *)

Section MoreStorageLemmas.

Lemma filter_subseq {A : Type} (f : A -> bool) (l : list A) :
  subseq (filter f l) l.
Proof.
  induction l as [|x l IH]; simpl; [apply subseq_nil|].
  destruct (f x); [apply subseq_take | apply subseq_skip]; exact IH.
Qed.

Lemma filter_twice {A : Type} (f : A -> bool) (l : list A) :
  filter f (filter f l) = filter f l.
Proof.
  induction l as [|x l IH]; simpl; [reflexivity|].
  destruct (f x) eqn:E; simpl; rewrite ?E, IH; reflexivity.
Qed.

Lemma filter_all_in {A : Type} (f : A -> bool) (l : list A) :
  (forall x, In x l -> f x = true) -> filter f l = l.
Proof.
  induction l as [|x l IH]; simpl; intros H; [reflexivity|].
  rewrite (H x (or_introl eq_refl)), IH; auto.
Qed.

Lemma negb_where_term_pos (tm ps : string) (r : Row) :
  negb (where_term_pos tm ps r) = true <-> key r <> (tm, ps).
Proof.
  rewrite negb_true_iff, <- not_true_iff_false, eqb_where_term_pos.
  reflexivity.
Qed.

Lemma filter_absent_key (tm ps : string) (rs : list Row) :
  ~ In (tm, ps) (map key rs) ->
  filter (fun r => negb (where_term_pos tm ps r)) rs = rs.
Proof.
  intros H. apply filter_all_in. intros r Hr.
  apply negb_where_term_pos. intros E. apply H. rewrite <- E.
  apply in_map. exact Hr.
Qed.

(** The inserting branch of [upsert_word], with the row it adds. *)
Lemma upsert_word_insert (db : DB) (t : Table) (data : Data) :
  dictionary db = Some t -> unique t = UniqueTermPos ->
  ~ In (data_term data, data_pos data) (map key (rows t)) ->
  upsert_word db data =
    Ok (set_dictionary db
          (Some (mkTable UniqueTermPos
                   (rows t ++
                    [mkRow (next_id t) (data_term data)
                       (data_pronunciation data) (data_pos data)
                       (data_meaning data) (data_example data)
                       (match max_sort_order (rows t) with
                        | None => 1
                        | Some m => m + 1
                        end)])
                   (next_id t))), created).
Proof.
  intros Hd Hu Hk. unfold upsert_word. rewrite Hd.
  destruct (filter _ (rows t)) as [|x found] eqn:F.
  - simpl. unfold insert_row. rewrite Hu. simpl.
    rewrite (filter_nil_existsb _ _ _ F). reflexivity.
  - exfalso. apply Hk.
    assert (Hx : In x (filter (where_term_pos (data_term data)
                                 (data_pos data)) (rows t)))
      by (rewrite F; left; reflexivity).
    apply filter_In in Hx. destruct Hx as [Hx Hw].
    apply eqb_where_term_pos in Hw. rewrite <- Hw. apply in_map. exact Hx.
Qed.

Lemma update_fields_twice (pr mn ex tm ps : string) (r : Row) :
  update_fields pr mn ex tm ps (update_fields pr mn ex tm ps r) =
  update_fields pr mn ex tm ps r.
Proof.
  unfold update_fields at 2. destruct (where_term_pos tm ps r) eqn:E.
  - unfold update_fields, where_term_pos in *. simpl. rewrite E. reflexivity.
  - unfold update_fields. rewrite E. reflexivity.
Qed.

Lemma update_fields_other (pr mn ex tm ps : string) (rs : list Row) :
  ~ In (tm, ps) (map key rs) -> map (update_fields pr mn ex tm ps) rs = rs.
Proof.
  intros H. rewrite <- (map_id rs) at 2. apply map_ext_in. intros r Hr.
  unfold update_fields. destruct (where_term_pos tm ps r) eqn:E;
    [|reflexivity].
  exfalso. apply H. apply eqb_where_term_pos in E. rewrite <- E.
  apply in_map. exact Hr.
Qed.

Lemma set_dictionary_set (db : DB) (t1 t2 : option Table) :
  set_dictionary (set_dictionary db t1) t2 = set_dictionary db t2.
Proof. reflexivity. Qed.

End MoreStorageLemmas.

Section UpsertAgain.

Lemma where_update_fields (pr mn ex tm ps t p : string) (r : Row) :
  where_term_pos t p (update_fields pr mn ex tm ps r) = where_term_pos t p r.
Proof.
  unfold update_fields. destruct (where_term_pos tm ps r); reflexivity.
Qed.

Lemma filter_update_fields (pr mn ex tm ps : string) (rs : list Row) :
  filter (where_term_pos tm ps) (map (update_fields pr mn ex tm ps) rs) =
  map (update_fields pr mn ex tm ps) (filter (where_term_pos tm ps) rs).
Proof.
  induction rs as [|r rs IH]; simpl; [reflexivity|].
  rewrite where_update_fields.
  destruct (where_term_pos tm ps r); simpl; rewrite IH; reflexivity.
Qed.

Lemma filter_nil_other (data : Data) (rs : list Row) :
  filter (where_term_pos (data_term data) (data_pos data)) rs = [] ->
  map (update_fields (data_pronunciation data) (data_meaning data)
         (data_example data) (data_term data) (data_pos data)) rs = rs.
Proof.
  intros F. apply update_fields_other. apply filter_nil_not_in. exact F.
Qed.

(** A second [upsert_word] with the same [data] finds the row and writes
    what is there. *)
Lemma upsert_word_again (db db1 : DB) (data : Data) (o : Outcome) :
  upsert_word db data = Ok (db1, o) -> upsert_word db1 data = Ok (db1, updated).
Proof.
  unfold upsert_word at 1. destruct (dictionary db) as [t|] eqn:Hd;
    [|discriminate].
  destruct (filter _ (rows t)) as [|x found] eqn:F; simpl.
  - unfold insert_row. destruct (conflicts _ _ _ _); [discriminate|].
    intros [= <- _]. unfold upsert_word. simpl.
    rewrite filter_app, F. simpl.
    unfold where_term_pos at 1. simpl. rewrite !String.eqb_refl. simpl.
    unfold map_rows. simpl. rewrite map_app, (filter_nil_other data _ F).
    simpl. unfold update_fields, where_term_pos. simpl.
    rewrite !String.eqb_refl. reflexivity.
  - intros [= <- _]. unfold upsert_word. simpl.
    rewrite filter_update_fields, F. simpl.
    unfold map_rows. simpl. rewrite map_map.
    f_equal. f_equal. unfold set_dictionary. simpl. f_equal. f_equal.
    f_equal. apply map_ext. intros r. apply update_fields_twice.
Qed.


End UpsertAgain.

Section OrderInvariant.

Lemma NoDup_map_in_eq {A B : Type} (f : A -> B) (l : list A) (x y : A) :
  NoDup (map f l) -> In x l -> In y l -> f x = f y -> x = y.
Proof.
  induction l as [|a l IH]; simpl; [tauto|].
  intros Hn Hx Hy E. inversion Hn as [|? ? Ha Hn']; subst.
  destruct Hx as [->|Hx], Hy as [->|Hy]; auto.
  - exfalso. apply Ha. rewrite E. apply in_map. exact Hy.
  - exfalso. apply Ha. rewrite <- E. apply in_map. exact Hx.
Qed.

Lemma NoDup_map_filter {V K : Type} (keep : V -> bool) (column : V -> K) :
  forall stored : list V,
    NoDup (map column stored) -> NoDup (map column (filter keep stored)).
Proof.
  intros stored. induction stored as [|v stored IH]; simpl; intros Hn.
  - constructor.
  - inversion Hn as [|? ? Hv Hn']; subst.
    destruct (keep v); simpl; [|exact (IH Hn')].
    constructor; [|exact (IH Hn')].
    intros H. apply Hv. apply in_map_iff in H. destruct H as (x & E & Hx).
    apply filter_In in Hx. rewrite <- E. apply in_map. apply Hx.
Qed.

Lemma sort_order_update_fields (pr mn ex tm ps : string) (rs : list Row) :
  map sort_order (map (update_fields pr mn ex tm ps) rs) = map sort_order rs.
Proof.
  rewrite map_map. apply map_ext. intros r. unfold update_fields.
  destruct (where_term_pos tm ps r); reflexivity.
Qed.

Lemma new_order_above (rs : list Row) :
  ~ In (match max_sort_order rs with None => 1 | Some m => m + 1 end)
       (map sort_order rs).
Proof.
  intros H. apply in_map_iff in H. destruct H as (x & E & Hx).
  destruct (new_order_spec rs) as [_ H2].
  assert (Hne : rs <> []) by (intros ->; exact Hx).
  destruct (H2 Hne) as [_ Hlt]. specialize (Hlt x Hx). simpl in Hlt. lia.
Qed.

Lemma exchange_inj (x y u v : Z) : exchange x y u = exchange x y v -> u = v.
Proof.
  unfold exchange.
  destruct (Z.eqb_spec u x), (Z.eqb_spec u y), (Z.eqb_spec v x),
    (Z.eqb_spec v y); lia.
Qed.

(** With ids and [sort_order]s both unique, the two UPDATE statements of a
    swap exchange the two values and touch no other. *)
Lemma sort_order_swap (rs : list Row) (a b r : Row) :
  NoDup (map id rs) -> NoDup (map sort_order rs) ->
  In a rs -> In b rs -> In r rs ->
  sort_order
    (update_sort_order (sort_order a) (id b)
       (update_sort_order (sort_order b) (id a) r)) =
  exchange (sort_order a) (sort_order b) (sort_order r).
Proof.
  intros Hi Ho Ha Hb Hr. unfold exchange.
  destruct (Z.eq_dec (id r) (id a)) as [Ea|Ea].
  - assert (r = a) by (apply (row_by_id rs); assumption). subst r.
    rewrite Z.eqb_refl.
    unfold update_sort_order, where_id. simpl. rewrite Z.eqb_refl. simpl.
    destruct (Z.eqb_spec (id a) (id b)) as [Eb|Eb]; simpl; [|reflexivity].
    assert (a = b) by (apply (row_by_id rs); assumption). subst b.
    reflexivity.
  - assert (Hso : sort_order r <> sort_order a).
    { intros E. apply Ea. f_equal.
      apply (NoDup_map_in_eq sort_order rs); assumption. }
    destruct (Z.eqb_spec (sort_order r) (sort_order a)); [contradiction|].
    apply Z.eqb_neq in Ea.
    unfold update_sort_order, where_id. simpl. rewrite Ea. simpl.
    destruct (Z.eqb_spec (id r) (id b)) as [Eb|Eb]; simpl.
    + assert (r = b) by (apply (row_by_id rs); assumption). subst r.
      rewrite Z.eqb_refl. reflexivity.
    + destruct (Z.eqb_spec (sort_order r) (sort_order b)) as [E|E];
        [|reflexivity].
      exfalso. apply Eb. f_equal.
      apply (NoDup_map_in_eq sort_order rs); assumption.
Qed.

Lemma StronglySorted_app {A : Type} (R : A -> A -> Prop) (l1 l2 : list A) :
  StronglySorted R (l1 ++ l2) ->
  StronglySorted R l1 /\ StronglySorted R l2 /\
  (forall x y, In x l1 -> In y l2 -> R x y).
Proof.
  induction l1 as [|a l1 IH]; simpl; intros H.
  - split; [constructor|]. split; [exact H|]. intros x y [].
  - inversion H as [|? ? Hs Hf]; subst. destruct (IH Hs) as (H1 & H2 & H3).
    rewrite Forall_forall in Hf. split; [|split; [exact H2|]].
    + constructor; [exact H1|]. apply Forall_forall. intros x Hx.
      apply Hf. apply in_or_app. left. exact Hx.
    + intros x y [<-|Hx] Hy; [|exact (H3 x y Hx Hy)].
      apply Hf. apply in_or_app. right. exact Hy.
Qed.

(** Two lists in ascending order with the same rows, no two of them under
    one [sort_order], are one list. *)
Lemma ascending_unique (l1 : list Row) :
  forall l2 : list Row,
    Permutation l1 l2 -> NoDup (map sort_order l1) ->
    ascending l1 -> ascending l2 -> l1 = l2.
Proof.
  unfold ascending. induction l1 as [|a l1 IH]; intros l2 Hp Hn H1 H2.
  - apply Permutation_nil in Hp. subst. reflexivity.
  - destruct l2 as [|b l2].
    + apply Permutation_sym, Permutation_nil in Hp. discriminate.
    + inversion H1 as [|? ? Hs1 Hf1]; subst.
      inversion H2 as [|? ? Hs2 Hf2]; subst.
      rewrite Forall_forall in Hf1, Hf2.
      assert (Eab : a = b).
      { assert (Ha : In a (b :: l2))
          by (apply (Permutation_in _ Hp); left; reflexivity).
        assert (Hb : In b (a :: l1))
          by (apply (Permutation_in _ (Permutation_sym Hp)); left;
              reflexivity).
        destruct Ha as [->|Ha]; [reflexivity|].
        destruct Hb as [->|Hb]; [reflexivity|].
        apply (NoDup_map_in_eq sort_order (a :: l1));
          [exact Hn | left; reflexivity | right; exact Hb |].
        specialize (Hf1 b Hb). specialize (Hf2 a Ha). lia. }
      subst b. f_equal. apply IH.
      * exact (Permutation_cons_inv Hp).
      * inversion Hn; assumption.
      * exact Hs1.
      * exact Hs2.
Qed.

End OrderInvariant.

Section FailedCopy.

Lemma insert_all_raises (src : list Row) :
  forall (t : Table) (e : sqlite_error),
    insert_all t src = Raise e -> e = IntegrityError.
Proof.
  induction src as [|r src IH]; intros t e; cbn [insert_all]; [discriminate|].
  unfold insert_row. destruct (conflicts _ _ _ _).
  - intros [= <-]. reflexivity.
  - apply IH.
Qed.

Lemma existsb_false_key (r : Row) (rs : list Row) :
  existsb (where_term_pos (term r) (pos r)) rs = false ->
  ~ In (key r) (map key rs).
Proof.
  intros E H. apply in_map_iff in H. destruct H as (x & Ex & Hx).
  assert (T : existsb (where_term_pos (term r) (pos r)) rs = true).
  { apply existsb_exists. exists x. split; [exact Hx|].
    apply eqb_where_term_pos. exact Ex. }
  congruence.
Qed.

(** A copy into a table under [UNIQUE(term, pos)] goes through only when
    the keys are pairwise different. *)
Lemma insert_all_keys (src : list Row) :
  forall t t' : Table,
    unique t = UniqueTermPos -> NoDup (map key (rows t)) ->
    insert_all t src = Ok t' -> NoDup (map key (rows t ++ src)).
Proof.
  induction src as [|r src IH]; intros t t' Hu Hn; cbn [insert_all].
  - intros _. rewrite app_nil_r. exact Hn.
  - unfold insert_row. rewrite Hu. cbn [conflicts].
    destruct (existsb _ (rows t)) eqn:E; [discriminate|].
    intros H. apply IH in H.
    + cbn [rows] in H. rewrite <- app_assoc in H. rewrite map_app in *.
      exact H.
    + reflexivity.
    + cbn [rows]. rewrite map_app. apply NoDup_snoc; [exact Hn|].
      apply (existsb_false_key r). exact E.
Qed.

Lemma v5_stuck (d : DB) (a b : Table) :
  dictionary d = Some a -> dictionary_old d = Some b ->
  dictionary (V5.migrated d) = Some a /\
  dictionary_old (V5.migrated d) = Some b.
Proof.
  intros Ha Hb. unfold V5.migrated. rewrite (v5_rename_fails d a b Ha Hb).
  destruct d as [x y s m]. simpl in *. subst. destruct s; auto.
Qed.

Lemma v5_stuck_iter (n : nat) (d : DB) (a b : Table) :
  dictionary d = Some a -> dictionary_old d = Some b ->
  dictionary (Nat.iter n V5.migrated d) = Some a /\
  dictionary_old (Nat.iter n V5.migrated d) = Some b.
Proof.
  intros Ha Hb. induction n as [|n IH]; simpl; [auto|].
  destruct IH as [Ia Ib]. apply v5_stuck; assumption.
Qed.

End FailedCopy.

Section SettingsLemmas.

Lemma filter_where_key_other (k k' : string) (rs : list (string * string)) :
  k' <> k ->
  filter (where_key k') (filter (fun kv => negb (where_key k kv)) rs) =
  filter (where_key k') rs.
Proof.
  intros Hne. unfold where_key.
  induction rs as [|[a b] rs IH]; simpl; [reflexivity|].
  destruct (String.eqb_spec a k) as [->|Ha]; simpl.
  - destruct (String.eqb_spec k k'); [congruence|]. exact IH.
  - destruct (String.eqb_spec a k'); simpl; rewrite IH; reflexivity.
Qed.

Lemma filter_where_key_same (k : string) (rs : list (string * string)) :
  filter (where_key k) (filter (fun kv => negb (where_key k kv)) rs) = [].
Proof.
  unfold where_key.
  induction rs as [|[a b] rs IH]; simpl; [reflexivity|].
  destruct (String.eqb_spec a k) as [->|Ha]; simpl; [exact IH|].
  destruct (String.eqb_spec a k); [contradiction|]. exact IH.
Qed.

Lemma filter_where_key_absent (k : string) (rs : list (string * string)) :
  ~ In k (map fst rs) -> filter (where_key k) rs = [].
Proof.
  unfold where_key.
  induction rs as [|[a b] rs IH]; simpl; [reflexivity|].
  intros H. destruct (String.eqb_spec a k) as [->|_]; [tauto|].
  apply IH. tauto.
Qed.

End SettingsLemmas.

Section NarrowingLemmas.




End NarrowingLemmas.

(** * Further lemmas on the window *)

Section WindowLemmas.

Lemma matches_empty_query (mode : SearchMode) (item : Row) :
  matches mode "" item = true.
Proof. reflexivity. Qed.

Lemma refresh_list_fields (fetched : list Row) (st : State) (query : string) :
  let st' := refresh_list fetched st query in
  display_items st' =
    filter (matches (search_mode st) (Text.lower query)) fetched /\
  listbox st' = map display_str (display_items st') /\
  curselection st' = [] /\ data_cache st' = fetched /\
  entry_search st' = entry_search st /\ search_mode st' = search_mode st /\
  current_mode st' = current_mode st /\ log_text st' = log_text st.
Proof.
  unfold refresh_list. rewrite refresh_loop_filter. simpl. repeat split.
Qed.

Lemma refresh_list_all (fetched : list Row) (st : State) :
  display_items (refresh_list fetched st "") = fetched /\
  listbox (refresh_list fetched st "") = map display_str fetched.
Proof.
  destruct (refresh_list_fields fetched st "") as (H1 & H2 & _).
  assert (E : display_items (refresh_list fetched st "") = fetched).
  { rewrite H1. apply filter_all. intros x. apply matches_empty_query. }
  split; [exact E|]. rewrite H2, E. reflexivity.
Qed.

Lemma window_ok_refresh_list (fetched : list Row) (st : State)
      (query : string) :
  window_ok (refresh_list fetched st query).
Proof.
  destruct (refresh_list_fields fetched st query) as (_ & H2 & H3 & _).
  split; [exact H2|]. unfold selection_valid. rewrite H3. constructor.
Qed.

Lemma window_ok_log (st : State) (message : string) (level : Level) :
  window_ok st -> window_ok (log st message level).
Proof. intros H. exact H. Qed.

Lemma window_ok_show_detail (st : State) :
  window_ok st -> window_ok (show_detail st).
Proof.
  intros H. unfold show_detail.
  destruct (curselection st) as [|idx rest] eqn:E; [exact H|].
  destruct (nth_error _ _); [|exact H].
  destruct H as [Ha Hs]. split; [exact Ha|].
  unfold selection_valid in *. simpl. rewrite <- E. exact Hs.
Qed.

Lemma window_ok_clear_form (st : State) :
  window_ok st -> window_ok (Editing.clear_form st).
Proof. intros H. exact H. Qed.

Lemma window_ok_selection_set (n : nat) (st : State) :
  window_ok st -> window_ok (Editing.selection_set n st).
Proof.
  intros [Ha Hs]. split; [exact Ha|].
  unfold selection_valid, Editing.selection_set in *. simpl.
  destruct (Nat.ltb_spec n (List.length (listbox st))); simpl; [|exact Hs].
  destruct (existsb _ _); simpl; [exact Hs|].
  constructor; assumption.
Qed.

Lemma window_ok_selection_set0 (st : State) :
  (0 < List.length (listbox st))%nat ->
  window_ok st -> window_ok (selection_set0 st).
Proof.
  intros Hl [Ha Hs]. split; [exact Ha|].
  unfold selection_valid, selection_set0 in *. simpl.
  destruct (existsb _ _); [exact Hs|]. constructor; assumption.
Qed.

Lemma window_ok_jump (fetched : list Row) (st : State) (word : string) :
  window_ok (jump_to_word_filter fetched st word).
Proof.
  unfold jump_to_word_filter.
  match goal with
  | |- context [log ?s ?m ?l] => set (st1 := log s m l)
  end.
  assert (H1 : window_ok st1) by apply window_ok_refresh_list.
  destruct (Nat.ltb_spec 0 (List.length (listbox st1))); [|exact H1].
  apply window_ok_show_detail. apply window_ok_selection_set0; assumption.
Qed.

Lemma aligned_length (st : State) :
  aligned st ->
  List.length (listbox st) = List.length (display_items st).
Proof. unfold aligned. intros ->. apply length_map. Qed.

End WindowLemmas.

Section MoveLemmas.

Lemma StronglySorted_app_intro {A : Type} (R : A -> A -> Prop)
      (l1 l2 : list A) :
  StronglySorted R l1 -> StronglySorted R l2 ->
  (forall x y, In x l1 -> In y l2 -> R x y) ->
  StronglySorted R (l1 ++ l2).
Proof.
  induction l1 as [|a l1 IH]; simpl; intros H1 H2 H; [exact H2|].
  inversion H1 as [|? ? Hs Hf]; subst. constructor.
  - apply IH; [exact Hs|exact H2|]. intros x y Hx Hy. apply H; auto.
  - apply Forall_app. split; [exact Hf|].
    apply Forall_forall. intros y Hy. apply H; auto.
Qed.

Lemma nth_error_middle {A : Type} (pre post : list A) (a b : A) :
  nth_error (pre ++ a :: b :: post) (List.length pre) = Some a /\
  nth_error (pre ++ a :: b :: post) (S (List.length pre)) = Some b.
Proof.
  induction pre as [|x pre IH]; simpl; [auto|exact IH].
Qed.

Lemma swapped_first (a b : Row) :
  id a <> id b -> swapped a b a = with_sort_order a (sort_order b).
Proof.
  intros H. unfold swapped, update_sort_order, where_id, with_sort_order.
  rewrite Z.eqb_refl. simpl.
  destruct (Z.eqb_spec (id a) (id b)); [contradiction|reflexivity].
Qed.

Lemma swapped_second (a b : Row) :
  id a <> id b -> swapped a b b = with_sort_order b (sort_order a).
Proof.
  intros H. unfold swapped, update_sort_order, where_id, with_sort_order.
  destruct (Z.eqb_spec (id b) (id a)); [congruence|].
  rewrite Z.eqb_refl. reflexivity.
Qed.

Lemma swapped_other (a b r : Row) :
  id r <> id a -> id r <> id b -> swapped a b r = r.
Proof.
  intros Ha Hb. unfold swapped, update_sort_order, where_id.
  destruct (Z.eqb_spec (id r) (id a)); [contradiction|].
  destruct (Z.eqb_spec (id r) (id b)); [contradiction|reflexivity].
Qed.

(** The updates of a swap in the other order do the same. *)
Lemma swapped_commutes (a b r : Row) :
  id a <> id b ->
  update_sort_order (sort_order b) (id a)
    (update_sort_order (sort_order a) (id b) r) = swapped a b r.
Proof.
  intros H. unfold swapped, update_sort_order, where_id.
  destruct (Z.eqb_spec (id r) (id a)) as [Ea|Ea];
    destruct (Z.eqb_spec (id r) (id b)) as [Eb|Eb]; simpl;
    repeat match goal with
           | |- context [Z.eqb ?x ?y] => destruct (Z.eqb_spec x y); simpl
           end;
    try congruence; reflexivity.
Qed.

Lemma map_id_middle (pre post : list Row) (a b : Row) :
  NoDup (map id (pre ++ a :: b :: post)) ->
  id a <> id b /\
  (forall x, In x pre \/ In x post -> id x <> id a /\ id x <> id b).
Proof.
  rewrite map_app. simpl. intros H.
  pose proof (NoDup_remove_2 _ _ _ H) as Ha.
  apply NoDup_remove_1 in H.
  pose proof (NoDup_remove_2 _ _ _ H) as Hb.
  split.
  - intros E. apply Ha. apply in_or_app. right. left. symmetry. exact E.
  - intros x Hx. split; intros E.
    + apply Ha. rewrite <- E. apply in_or_app.
      destruct Hx as [Hx|Hx]; [left|right; right]; apply in_map; exact Hx.
    + apply Hb. rewrite <- E. apply in_or_app.
      destruct Hx as [Hx|Hx]; [left|right]; apply in_map; exact Hx.
Qed.

Lemma map_swapped_middle (pre post : list Row) (a b : Row) :
  NoDup (map id (pre ++ a :: b :: post)) ->
  map (swapped a b) (pre ++ a :: b :: post) =
  (pre ++ with_sort_order a (sort_order b) ::
          with_sort_order b (sort_order a) :: post)%list.
Proof.
  intros H. destruct (map_id_middle pre post a b H) as [Hab Hx].
  rewrite map_app. simpl.
  rewrite (swapped_first a b Hab), (swapped_second a b Hab).
  f_equal; [|f_equal; f_equal].
  - rewrite <- (map_id pre) at 2. apply map_ext_in. intros x Hin.
    apply swapped_other; apply Hx; auto.
  - rewrite <- (map_id post) at 2. apply map_ext_in. intros x Hin.
    apply swapped_other; apply Hx; auto.
Qed.

Lemma ascending_swapped_middle (pre post : list Row) (a b : Row) :
  ascending (pre ++ a :: b :: post) ->
  ascending (pre ++ with_sort_order b (sort_order a) ::
                    with_sort_order a (sort_order b) :: post).
Proof.
  unfold ascending. intros H.
  destruct (StronglySorted_app _ _ _ H) as (Hpre & Hrest & Hcross).
  inversion Hrest as [|? ? Hb Hfa]; subst.
  inversion Hb as [|? ? Hpost Hfb]; subst.
  inversion Hfa as [|? ? Hab Hfa']; subst.
  rewrite Forall_forall in Hfa', Hfb.
  apply StronglySorted_app_intro; [exact Hpre| |].
  - constructor.
    + constructor; [exact Hpost|]. apply Forall_forall. intros y Hy.
      simpl. apply Hfb. exact Hy.
    + constructor; [simpl; exact Hab|]. apply Forall_forall. intros y Hy.
      simpl. apply Hfa'. exact Hy.
  - intros x y Hx [<-|[<-|Hy]]; simpl.
    + apply (Hcross x a Hx). left. reflexivity.
    + apply (Hcross x b Hx). right. left. reflexivity.
    + apply (Hcross x y Hx). right. right. exact Hy.
Qed.

End MoveLemmas.

Section SwapListing.

Lemma swapped_orders_unique (rs : list Row) (a b : Row) :
  NoDup (map id rs) -> NoDup (map sort_order rs) -> In a rs -> In b rs ->
  NoDup (map sort_order (map (swapped a b) rs)).
Proof.
  intros Hi Ho Ha Hb. rewrite map_map.
  rewrite (map_ext_in _
             (fun r => exchange (sort_order a) (sort_order b)
                         (sort_order r))).
  - rewrite <- (map_map sort_order).
    apply NoDup_map_NoDup_ForallPairs; [|exact Ho].
    intros x y _ _. apply exchange_inj.
  - intros r Hr. apply (sort_order_swap rs a b r); assumption.
Qed.

(** The file and the one list [get_all_words] returns after two
    neighbours of the list were given each other's [sort_order]. *)
Lemma swap_listing (db : DB) (t : Table) (pre post : list Row) (a b : Row) :
  dictionary db = Some t ->
  NoDup (map id (rows t)) -> NoDup (map sort_order (rows t)) ->
  get_all_words db (pre ++ a :: b :: post) ->
  let db' := set_dictionary db
               (Some (mkTable (unique t) (map (swapped a b) (rows t))
                              (sqlite_sequence t))) in
  update_order db (id a) (sort_order b) (id b) (sort_order a) = Ok db' /\
  update_order db (id b) (sort_order a) (id a) (sort_order b) = Ok db' /\
  (forall fetched : list Row,
     get_all_words db' fetched <->
     fetched = (pre ++ with_sort_order b (sort_order a) ::
                       with_sort_order a (sort_order b) :: post)%list) /\
  In a (rows t) /\ In b (rows t) /\ id a <> id b.
Proof.
  intros Hd Hi Ho Hl db'.
  apply (get_all_words_iff db t _ Hd) in Hl. destruct Hl as [Hp Hs].
  assert (Hil : NoDup (map id (pre ++ a :: b :: post))).
  { apply (Permutation_NoDup (l := map id (rows t))); [|exact Hi].
    apply Permutation_map. symmetry. exact Hp. }
  destruct (map_id_middle pre post a b Hil) as [Hab _].
  assert (Ha : In a (rows t)).
  { apply (Permutation_in _ Hp). apply in_or_app. right. left. reflexivity. }
  assert (Hb : In b (rows t)).
  { apply (Permutation_in _ Hp). apply in_or_app. right. right. left.
    reflexivity. }
  split; [|split; [|split; [|auto]]].
  - unfold update_order. rewrite Hd. unfold map_rows. simpl.
    rewrite map_map. reflexivity.
  - unfold update_order. rewrite Hd. unfold map_rows. simpl.
    rewrite map_map. unfold db'. do 4 f_equal.
    apply map_ext. intros r. apply swapped_commutes. exact Hab.
  - intros fetched.
    set (l' := (pre ++ with_sort_order b (sort_order a) ::
                       with_sort_order a (sort_order b) :: post)%list).
    assert (Hp' : Permutation l' (map (swapped a b) (rows t))).
    { rewrite <- Hp, (map_swapped_middle pre post a b Hil).
      unfold l'. apply Permutation_app_head. apply perm_swap. }
    assert (Hs' : ascending l')
      by (apply ascending_swapped_middle; exact Hs).
    rewrite (get_all_words_iff db' _ fetched eq_refl). simpl. split.
    + intros [Pf Sf]. apply ascending_unique; [| |exact Sf|exact Hs'].
      * rewrite Pf, Hp'. reflexivity.
      * apply (Permutation_NoDup
                 (l := map sort_order (map (swapped a b) (rows t)))).
        -- apply Permutation_map. symmetry. exact Pf.
        -- apply swapped_orders_unique; assumption.
    + intros ->. split; assumption.
Qed.

(** What [_move] does when it finds both entries. *)
Lemma move_found (db db' : DB) (st : State) (d : Z) (fetched : list Row)
      (i j : nat) (rest : list nat) (item1 item2 : Row) :
  entry_search st = "" -> curselection st = i :: rest ->
  Z.of_nat i + d = Z.of_nat j ->
  nth_error (display_items st) i = Some item1 ->
  nth_error (display_items st) j = Some item2 ->
  update_order db (id item1) (sort_order item2) (id item2) (sort_order item1)
    = Ok db' ->
  Editing._move db st d fetched =
    Editing.Returns
      (db', Editing.selection_set j (refresh_list fetched st "")).
Proof.
  intros Hq Hsel Hj H1 H2 Hu. unfold Editing._move.
  rewrite Hq, Hsel. simpl. rewrite Hj, Nat2Z.id, H1, H2, Hu.
  assert (Hlt : (j < List.length (display_items st))%nat).
  { apply nth_error_Some. congruence. }
  destruct (Z.leb_spec 0 (Z.of_nat j)); [|lia]. simpl.
  destruct (Z.ltb_spec (Z.of_nat j)
              (Z.of_nat (List.length (display_items st)))); [|lia].
  reflexivity.
Qed.

Lemma selection_set_after_refresh (fetched : list Row) (st : State)
      (j : nat) :
  (j < List.length fetched)%nat ->
  let st' := Editing.selection_set j (refresh_list fetched st "") in
  display_items st' = fetched /\
  listbox st' = map display_str fetched /\
  curselection st' = [j] /\
  entry_search st' = entry_search st.
Proof.
  intros Hj. destruct (refresh_list_all fetched st) as [Hd Hl].
  destruct (refresh_list_fields fetched st "") as (_ & _ & Hc & _ & He & _).
  set (r := refresh_list fetched st "") in *.
  unfold Editing.selection_set.
  cbn [display_items listbox curselection entry_search].
  rewrite Hl, Hc, length_map.
  destruct (Nat.ltb_spec j (List.length fetched)); [|lia].
  simpl. auto.
Qed.

End SwapListing.

(** * Further lemmas on saving and deleting *)

Section StripLemmas.



Lemma rstrip_empty (s : string) : Str.rstrip s = "" -> blank s.
Proof.
  unfold blank. induction s as [|c s IH]; simpl; intros H; [constructor|].
  destruct (Str.rstrip s) as [|d r]; [|discriminate].
  destruct (Str.isspace c) eqn:Hc; [|discriminate].
  constructor; [exact Hc|exact (IH eq_refl)].
Qed.




End StripLemmas.

Section SaveLemmas.





End SaveLemmas.

Section SaveKeyLemmas.


End SaveKeyLemmas.

Section StripTwice.




End StripTwice.

(** * Further lemmas on the import *)

Section ImportLemmas.







(** An item out of range: nothing is stored for it. *)
Lemma upsert_item_overflow (db : DB) (t : Table) (item : Json.Object) :
  dictionary db = Some t ->
  Json.bind (Json.term_of item) = None \/
  Json.bind (Json.get item "pronunciation" (Json.Str "")) = None \/
  Json.bind (Json.get item "part_of_speech"
               (Json.get item "pos" (Json.Str ""))) = None \/
  Json.bind (Json.get item "definition"
               (Json.get item "meaning" (Json.Str ""))) = None \/
  Json.bind (Json.get item "example" (Json.Str "")) = None ->
  Json.upsert_item db item = (db, Some Json.OverflowError).
Proof.
  intros Hd H. unfold Json.upsert_item. rewrite Hd.
  destruct (Json.bind (Json.term_of item)); [|reflexivity].
  destruct (Json.bind (Json.get item "pronunciation" _)); [|reflexivity].
  destruct (Json.bind (Json.get item "part_of_speech" _)); [|reflexivity].
  destruct (Json.bind (Json.get item "definition" _)); [|reflexivity].
  destruct (Json.bind (Json.get item "example" _)); [|reflexivity].
  destruct H as [H|[H|[H|[H|H]]]]; discriminate.
Qed.



End ImportLemmas.

Section MembersLemmas.

Lemma members_items_clash (m : list (string * Json.Object)) (k : string)
      (v : Json.Object) :
  In (k, v) m -> Json.has_key v "term" = true -> Json.members_items m = None.
Proof.
  induction m as [|[k' v'] m IH]; simpl; [intros []|].
  intros [[= -> ->]|Hin] Hv.
  - unfold Json.with_term. rewrite Hv. reflexivity.
  - destruct (Json.with_term k' v'); [|reflexivity].
    rewrite (IH Hin Hv). reflexivity.
Qed.

Lemma members_items_map (m : list (string * Json.Object)) :
  (forall k v, In (k, v) m -> Json.has_key v "term" = false) ->
  Json.members_items m = Some (map member_item m).
Proof.
  induction m as [|[k v] m IH]; simpl; intros H; [reflexivity|].
  unfold Json.with_term. rewrite (H k v (or_introl eq_refl)).
  rewrite IH; [reflexivity|]. intros k' v' Hin. apply (H k' v').
  right. exact Hin.
Qed.

End MembersLemmas.

Section ImportStops.

Lemma import_loop_app (pre rest : list Json.Object) :
  forall (db db1 : DB) (count c1 : nat),
    Json.import_loop db pre count = (db1, c1, None) ->
    Json.import_loop db (pre ++ rest) count = Json.import_loop db1 rest c1.
Proof.
  induction pre as [|item pre IH]; simpl; intros db db1 count c1.
  - intros [= <- <-]. reflexivity.
  - destruct (Json.truthy (Json.term_of item)); [|apply IH].
    destruct (Json.upsert_item db item) as [db' [e|]]; [discriminate|].
    apply IH.
Qed.

(** A call that raises has stored nothing. *)
Lemma upsert_item_raises (db db' : DB) (item : Json.Object)
      (e : Json.Exception) :
  Json.upsert_item db item = (db', Some e) -> db' = db.
Proof.
  unfold Json.upsert_item. destruct (dictionary db); [|congruence].
  destruct (Json.bind (Json.term_of item)); [|congruence].
  destruct (Json.bind (Json.get item "pronunciation" _)); [|congruence].
  destruct (Json.bind (Json.get item "part_of_speech" _)); [|congruence].
  destruct (Json.bind (Json.get item "definition" _)); [|congruence].
  destruct (Json.bind (Json.get item "example" _)); [|congruence].
  destruct (upsert_word _ _) as [[d o]|x]; congruence.
Qed.

Lemma bind_out_of_range (z : Z) :
  z < - 2 ^ 63 \/ 2 ^ 63 <= z -> Json.bind (Json.Int z) = None.
Proof.
  intros H. unfold Json.bind.
  destruct (Z.leb_spec (- 2 ^ 63) z); destruct (Z.ltb_spec z (2 ^ 63));
    simpl; try reflexivity; lia.
Qed.

End ImportStops.

(** * Further lemmas on export and import *)

Section RoundTrip.

Lemma max_sort_order_app (rs : list Row) (r : Row) :
  max_sort_order (rs ++ [r]) =
  Some (match max_sort_order rs with
        | None => sort_order r
        | Some m => Z.max m (sort_order r)
        end).
Proof.
  induction rs as [|x rs IH]; simpl; [reflexivity|].
  rewrite IH. destruct (max_sort_order rs) as [m|]; f_equal; lia.
Qed.

(** What [import_json_logic] reads from a record that [do_export_json]
    wrote. *)
Lemma upsert_item_export (db : DB) (t : Table) (r : Row) :
  dictionary db = Some t ->
  Json.upsert_item db (Json.export_row r) =
    match upsert_word db (mkData (term r) (pronunciation r) (pos r)
                            (meaning r) (example r)) with
    | Ok (db', _) => (db', None)
    | Raise e => (db, Some (Json.DatabaseError e))
    end.
Proof. intros Hd. unfold Json.upsert_item. rewrite Hd. reflexivity. Qed.

Lemma numbered_length (l : list Row) (k : Z) :
  List.length (numbered k l) = List.length l.
Proof. revert k. induction l as [|r l IH]; simpl; intros k; auto. Qed.

Lemma numbered_fields (l : list Row) (k : Z) :
  map fields_of (numbered k l) = map fields_of l.
Proof.
  revert k. induction l as [|r l IH]; simpl; intros k; [reflexivity|].
  rewrite IH. reflexivity.
Qed.

Lemma numbered_above (l : list Row) (k : Z) (x : Row) :
  In x (numbered k l) -> k < sort_order x /\ sort_order x = id x.
Proof.
  revert k. induction l as [|r l IH]; simpl; intros k; [intros []|].
  intros [<-|Hin]; [simpl; lia|].
  destruct (IH (k + 1) Hin). lia.
Qed.

Lemma numbered_ascending (l : list Row) (k : Z) : ascending (numbered k l).
Proof.
  unfold ascending. revert k.
  induction l as [|r l IH]; simpl; intros k; constructor; [apply IH|].
  apply Forall_forall. intros x Hx. simpl.
  destruct (numbered_above l (k + 1) x Hx). lia.
Qed.

Lemma numbered_orders_unique (l : list Row) (k : Z) :
  NoDup (map sort_order (numbered k l)).
Proof.
  revert k. induction l as [|r l IH]; simpl; intros k; constructor;
    [|apply IH].
  intros Hin. apply in_map_iff in Hin. destruct Hin as (x & E & Hx).
  destruct (numbered_above l (k + 1) x Hx). lia.
Qed.

(** The loop on records that were exported, none of them stored yet, on a
    table whose rowids and sort keys have reached [k]. *)
Lemma import_loop_numbered (l : list Row) :
  forall (db : DB) (t : Table) (k : Z) (count : nat),
    dictionary db = Some t -> unique t = UniqueTermPos ->
    sqlite_sequence t = k -> max_id (rows t) <= k ->
    match max_sort_order (rows t) with None => 1 | Some m => m + 1 end
      = k + 1 ->
    NoDup (map key l) ->
    (forall r, In r l -> ~ In (key r) (map key (rows t))) ->
    Forall (fun r => term r <> "") l ->
    Json.import_loop db (map Json.export_row l) count =
      (set_dictionary db
         (Some (mkTable UniqueTermPos (rows t ++ numbered k l)
                        (k + Z.of_nat (List.length l)))),
       (count + List.length l)%nat, None).
Proof.
  induction l as [|r l IH]; intros db t k count Hd Hu Hs Hm Ho Hn Hk Hne.
  - simpl. rewrite app_nil_r, Z.add_0_r, Nat.add_0_r, <- Hu, <- Hs, table_eta.
    rewrite (set_dictionary_same db t Hd). reflexivity.
  - inversion Hn as [|? ? Hr Hn']; subst.
    inversion Hne as [|? ? Hr0 Hne']; subst.
    cbn [map Json.import_loop].
    assert (Ht : Json.truthy (Json.term_of (Json.export_row r)) = true).
    { change (negb (Text.is_empty (term r)) = true).
      destruct (Text.is_empty (term r)) eqn:E; [|reflexivity].
      apply is_empty_spec in E. contradiction. }
    rewrite Ht, (upsert_item_export db t r Hd).
    rewrite (upsert_word_insert db t _ Hd Hu);
      [|exact (Hk r (or_introl eq_refl))].
    cbn [data_term data_pronunciation data_pos data_meaning data_example].
    assert (En : next_id t = sqlite_sequence t + 1)
      by (unfold next_id; lia).
    rewrite Ho, En.
    set (r' := mkRow (sqlite_sequence t + 1) (term r) (pronunciation r)
                 (pos r) (meaning r) (example r) (sqlite_sequence t + 1)).
    set (t' := mkTable UniqueTermPos (rows t ++ [r'])%list
                 (sqlite_sequence t + 1)).
    rewrite (IH (set_dictionary db (Some t')) t' (sqlite_sequence t + 1)
               (S count)).
    + rewrite set_dictionary_set. unfold t'. cbn [rows].
      rewrite <- app_assoc. cbn [numbered app List.length].
      fold r'.
      replace (sqlite_sequence t + Z.of_nat (S (List.length l)))
        with (sqlite_sequence t + 1 + Z.of_nat (List.length l)) by lia.
      replace (count + S (List.length l))%nat
        with (S count + List.length l)%nat by lia.
      reflexivity.
    + reflexivity.
    + reflexivity.
    + reflexivity.
    + unfold t'. cbn [rows]. rewrite max_id_app. unfold r'. cbn [id].
      pose proof (max_id_nonneg (rows t)). lia.
    + unfold t'. cbn [rows]. rewrite max_sort_order_app.
      unfold r'. cbn [sort_order].
      destruct (max_sort_order (rows t)) as [m|]; lia.
    + exact Hn'.
    + intros x Hx. unfold t'. cbn [rows]. rewrite map_app. intros Hin.
      apply in_app_or in Hin. destruct Hin as [Hin|[E|[]]].
      * exact (Hk x (or_intror Hx) Hin).
      * apply Hr. change (key r') with (key r) in E. rewrite E.
        apply in_map. exact Hx.
    + exact Hne'.
Qed.

Lemma numbered_ids (l : list Row) :
  forall (n : nat) (k : Z),
    Z.of_nat n = k + 1 ->
    map id (numbered k l) = map Z.of_nat (List.seq n (List.length l)).
Proof.
  induction l as [|r l IH]; simpl; intros n k E; [reflexivity|].
  rewrite E. f_equal. apply IH. lia.
Qed.

Lemma numbered_orders (l : list Row) (k : Z) :
  map sort_order (numbered k l) = map id (numbered k l).
Proof.
  revert k. induction l as [|r l IH]; simpl; intros k; [reflexivity|].
  rewrite IH. reflexivity.
Qed.

End RoundTrip.

(** * Further lemmas on the links *)

Section LinesLemmas.

(** The links do not depend on the plain text gathered so far. *)
Lemma link_words_plain (s : string) :
  forall (k : nat) (p p' : string),
    link_words (link_spans s k p) = link_words (link_spans s k p').
Proof.
  induction s as [|c s IH]; intros k p p'; [reflexivity|].
  destruct k as [|k]; cbn [link_spans].
  - destruct (match_here (String c s)) as [w|].
    + reflexivity.
    + apply IH.
  - apply IH.
Qed.

(** The group of a link ends before the end of its line. *)
Lemma lazy_group_line (x b : string) :
  lazy_group (x ++ String Text.newline b) = lazy_group x.
Proof.
  induction x as [|c x IH]; [reflexivity|].
  cbn [append lazy_group]. rewrite IH. reflexivity.
Qed.

Lemma match_here_line (c : ascii) (a b : string) :
  match_here (String c a ++ String Text.newline b) = match_here (String c a).
Proof.
  cbn [append match_here]. destruct (Ascii.eqb c Text.lbracket);
    [apply lazy_group_line|reflexivity].
Qed.

Lemma length_word_le (w : string) (x : ascii) (r : string) :
  (S (String.length w) <= String.length (w ++ String x r))%nat.
Proof. induction w as [|c w IH]; simpl; lia. Qed.

(** The links of two lines are those of the first, then those of the
    second. *)
Lemma link_words_line (a : string) :
  forall (k : nat) (p b : string),
    (k <= String.length a)%nat ->
    link_words (link_spans (a ++ String Text.newline b) k p) =
    (link_words (link_spans a k p) ++ link_words (link_spans b 0 ""))%list.
Proof.
  induction a as [|c a IH]; intros k p b Hk.
  - assert (k = 0%nat) by (simpl in Hk; lia). subst k.
    cbn [append]. rewrite link_spans_plain by reflexivity.
    apply link_words_plain.
  - destruct k as [|k].
    + change (String c a ++ String Text.newline b)
        with (String c (a ++ String Text.newline b)).
      cbn [link_spans].
      change (String c (a ++ String Text.newline b))
        with (String c a ++ String Text.newline b).
      rewrite match_here_line.
      destruct (match_here (String c a)) as [w|] eqn:E.
      * cbn [link_words app]. f_equal. apply IH.
        apply match_here_sound in E. destruct E as (r & E & _).
        unfold bracketed in E. injection E as _ ->.
        apply length_word_le.
      * apply IH. lia.
    + cbn [append link_spans]. apply IH. simpl in Hk. lia.
Qed.

Lemma links_of_lines (a b : string) :
  links_of (a ++ nl ++ b) = (links_of a ++ links_of b)%list.
Proof.
  unfold links_of, ExtractLinks, nl. cbn [append].
  apply link_words_line. lia.
Qed.

(** Text without an opening bracket before a text adds no link. *)
Lemma links_of_label (l s : string) :
  Text.has_char Text.lbracket l = false -> links_of (l ++ s) = links_of s.
Proof.
  unfold links_of, ExtractLinks. generalize "" at 1.
  induction l as [|c l IH]; intros p H; cbn [append].
  - apply link_words_plain.
  - simpl in H. apply orb_false_iff in H. destruct H as [Hc Hl].
    rewrite link_spans_plain; [apply IH; exact Hl|].
    simpl. rewrite Hc. reflexivity.
Qed.

End LinesLemmas.

Section DetailLinks.

Lemma links_of_field (l f rest : string) :
  Text.has_char Text.lbracket l = false ->
  links_of (l ++ f ++ nl ++ rest) = (links_of f ++ links_of rest)%list.
Proof.
  intros H. rewrite <- append_assoc, links_of_lines, (links_of_label l f H).
  reflexivity.
Qed.

Lemma links_of_empty_line (rest : string) :
  links_of (nl ++ rest) = links_of rest.
Proof. exact (links_of_lines "" rest). Qed.

(** The links of the text [show_detail] composes. *)
Lemma links_of_content (item : Row) :
  links_of (content item) =
  (links_of (pronunciation item) ++ links_of (pos item) ++
   links_of (meaning item) ++ links_of (example item))%list.
Proof.
  unfold content.
  rewrite links_of_field by reflexivity.
  rewrite links_of_field by reflexivity.
  rewrite links_of_empty_line, links_of_lines, links_of_lines.
  rewrite links_of_empty_line, links_of_lines.
  reflexivity.
Qed.

End DetailLinks.

(** * Further properties *)

(** X1.  [delete_word] on a file with a table never raises.  It keeps
    the constraint and the rowid counter and leaves exactly the rows with
    another key, in their order and untouched; when no row has the key the
    file is as before; a second call changes nothing. *)
Theorem X1_delete_word (db : DB) (t : Table) (tm ps : string) :
  dictionary db = Some t ->
  exists rs' : list Row,
    delete_word db tm ps =
      Ok (set_dictionary db
            (Some (mkTable (unique t) rs' (sqlite_sequence t)))) /\
    (forall r : Row, In r rs' <-> In r (rows t) /\ key r <> (tm, ps)) /\
    subseq rs' (rows t) /\
    (~ In (tm, ps) (map key (rows t)) -> delete_word db tm ps = Ok db) /\
    (forall db' : DB,
       delete_word db tm ps = Ok db' -> delete_word db' tm ps = Ok db').
Proof.
  intros Hd. unfold delete_word. rewrite Hd.
  eexists. split; [reflexivity|]. split; [|split; [|split]].
  - intros r. rewrite filter_In, negb_where_term_pos. reflexivity.
  - apply filter_subseq.
  - intros H. rewrite (filter_absent_key tm ps (rows t) H), table_eta.
    rewrite (set_dictionary_same db t Hd). reflexivity.
  - intros db' [= <-]. simpl. rewrite filter_twice. reflexivity.
Qed.

(** X1 at the store with the two senses of [run]. *)
Lemma X1_witness :
  exists rs' : list Row,
    delete_word store_two "run" "N(名詞)" =
      Ok (set_dictionary store_two (Some (mkTable UniqueTermPos rs' 2))) /\
    (forall r : Row,
       In r rs' <-> In r (rows table_two) /\ key r <> ("run", "N(名詞)")) /\
    subseq rs' (rows table_two) /\
    (~ In ("run", "N(名詞)") (map key (rows table_two)) ->
     delete_word store_two "run" "N(名詞)" = Ok store_two) /\
    (forall db' : DB,
       delete_word store_two "run" "N(名詞)" = Ok db' ->
       delete_word db' "run" "N(名詞)" = Ok db').
Proof. apply (X1_delete_word store_two table_two). reflexivity. Defined.



(** X3.  [upsert_word] is idempotent: after a call that went through,
    the same call again answers [updated] and leaves the file as it is. *)
Theorem X3_upsert_word_twice (db db1 : DB) (data : Data) (o : Outcome) :
  upsert_word db data = Ok (db1, o) ->
  upsert_word db1 data = Ok (db1, updated).
Proof. apply upsert_word_again. Qed.

(** X3 at a new file, for the verb [run]. *)
Lemma X3_witness :
  upsert_word
    (set_dictionary fresh
       (Some (mkTable UniqueTermPos
                [mkRow 1 "run" "" "V(動詞)" "to move fast, see [sprint]" "" 1]
                1)))
    run_v =
  Ok (set_dictionary fresh
        (Some (mkTable UniqueTermPos
                 [mkRow 1 "run" "" "V(動詞)" "to move fast, see [sprint]" "" 1]
                 1)), updated).
Proof. apply (X3_upsert_word_twice fresh _ run_v created). reflexivity. Defined.

(** X4.  No two entries under one [sort_order]: a table that is so stays
    so under [upsert_word], under [delete_word] and, when [id] is a primary
    key, under the [update_order] that gives two stored entries each
    other's [sort_order], which is the call [_move] makes. *)
Theorem X4_sort_orders_stay_unique (db : DB) (t : Table) :
  dictionary db = Some t -> orders_unique (rows t) ->
  (forall (data : Data) (db' : DB) (o : Outcome),
     upsert_word db data = Ok (db', o) ->
     exists t' : Table,
       dictionary db' = Some t' /\ orders_unique (rows t')) /\
  (forall (tm ps : string) (db' : DB),
     delete_word db tm ps = Ok db' ->
     exists t' : Table,
       dictionary db' = Some t' /\ orders_unique (rows t')) /\
  (forall (a b : Row) (db' : DB),
     ids_unique (rows t) -> In a (rows t) -> In b (rows t) ->
     update_order db (id a) (sort_order b) (id b) (sort_order a) = Ok db' ->
     exists t' : Table,
       dictionary db' = Some t' /\ orders_unique (rows t')).
Proof.
  unfold orders_unique, ids_unique. intros Hd Hn. split; [|split].
  - intros data db' o. unfold upsert_word. rewrite Hd.
    destruct (fetchone _).
    + intros [= <- _]. eexists. split; [reflexivity|]. simpl.
      rewrite sort_order_update_fields. exact Hn.
    + unfold insert_row. destruct (conflicts _ _ _ _); [discriminate|].
      intros [= <- _]. eexists. split; [reflexivity|]. simpl.
      rewrite map_app. simpl. apply NoDup_snoc; [exact Hn|].
      apply new_order_above.
  - intros tm ps db'. unfold delete_word. rewrite Hd.
    intros [= <-]. eexists. split; [reflexivity|]. simpl.
    apply NoDup_map_filter. exact Hn.
  - intros a b db' Hi Ha Hb. unfold update_order. rewrite Hd.
    intros [= <-]. eexists. split; [reflexivity|]. simpl.
    rewrite !map_map.
    rewrite (map_ext_in _
               (fun r => exchange (sort_order a) (sort_order b)
                           (sort_order r))).
    + rewrite <- (map_map sort_order).
      apply NoDup_map_NoDup_ForallPairs; [|exact Hn].
      intros x y _ _. apply exchange_inj.
    + intros r Hr. apply (sort_order_swap (rows t) a b r); assumption.
Qed.

(** X4 at the store with the two senses of [run]. *)
Lemma X4_witness :
  (forall (data : Data) (db' : DB) (o : Outcome),
     upsert_word store_two data = Ok (db', o) ->
     exists t' : Table,
       dictionary db' = Some t' /\ orders_unique (rows t')) /\
  (forall (tm ps : string) (db' : DB),
     delete_word store_two tm ps = Ok db' ->
     exists t' : Table,
       dictionary db' = Some t' /\ orders_unique (rows t')) /\
  (forall (a b : Row) (db' : DB),
     ids_unique (rows table_two) ->
     In a (rows table_two) -> In b (rows table_two) ->
     update_order store_two (id a) (sort_order b) (id b) (sort_order a) =
       Ok db' ->
     exists t' : Table,
       dictionary db' = Some t' /\ orders_unique (rows t')).
Proof.
  apply (X4_sort_orders_stay_unique store_two table_two).
  - reflexivity.
  - unfold orders_unique. simpl.
    repeat constructor; simpl; intuition discriminate.
Defined.

(** X5.  When no two entries share a [sort_order], [get_all_words] has
    one result only. *)
Theorem X5_listing_is_determined (db : DB) (t : Table) (l1 l2 : list Row) :
  dictionary db = Some t -> orders_unique (rows t) ->
  get_all_words db l1 -> get_all_words db l2 -> l1 = l2.
Proof.
  unfold orders_unique. intros Hd Hn H1 H2.
  apply (get_all_words_iff db t l1 Hd) in H1.
  apply (get_all_words_iff db t l2 Hd) in H2.
  destruct H1 as [P1 S1], H2 as [P2 S2].
  apply ascending_unique; [| |exact S1|exact S2].
  - rewrite P1, P2. reflexivity.
  - apply (Permutation_NoDup (l := map sort_order (rows t))); [|exact Hn].
    apply Permutation_map. symmetry. exact P1.
Qed.

(** X5 at the store with the two senses of [run]. *)
Lemma X5_witness :
  order_by_sort_order [row_run_n; row_run_v] = [row_run_v; row_run_n].
Proof.
  apply (X5_listing_is_determined store_two table_two).
  - reflexivity.
  - unfold orders_unique. simpl.
    repeat constructor; simpl; intuition discriminate.
  - apply (fetchall store_two table_two [row_run_n; row_run_v] eq_refl).
    apply perm_swap.
  - apply (fetchall store_two table_two [row_run_v; row_run_n] eq_refl).
    apply Permutation_refl.
Defined.





(** X8.  A copy that fails is never tried again.  When version 5.0 is
    started on a file whose [dictionary] holds one key twice and that has no
    [dictionary_old], the copy fails with [IntegrityError]: the program sees
    an empty [dictionary] and lists nothing, while every row is kept in
    [dictionary_old].  At every later start the rename fails on that table,
    so both tables stay as they are, however often the program is
    started. *)
Theorem X8_failed_copy_is_not_retried (db : DB) (t : Table) (n : nat) :
  dictionary db = Some t -> dictionary_old db = None ->
  ~ NoDup (map key (rows t)) ->
  In (V5.Failed V5.CopyRows IntegrityError) (V5.trace (V5.migrate_db db)) /\
  dictionary (Nat.iter (S n) V5.migrated db) =
    Some (mkTable UniqueTermPos [] 0) /\
  dictionary_old (Nat.iter (S n) V5.migrated db) = Some t /\
  (forall l : list Row,
     get_all_words (Nat.iter (S n) V5.migrated db) l -> l = []).
Proof.
  intros Hd Ho Hdup.
  destruct (insert_all (mkTable UniqueTermPos [] 0) (rows t))
    as [t'|e] eqn:Hi.
  - exfalso. apply Hdup.
    apply (insert_all_keys (rows t) (mkTable UniqueTermPos [] 0) t'
             eq_refl (NoDup_nil _) Hi).
  - assert (e = IntegrityError) by exact (insert_all_raises _ _ _ Hi).
    subst e.
    pose proof (v5_copy_fails db t IntegrityError Hd Ho Hi) as Hrun.
    assert (H1 : dictionary (V5.migrated db) =
                 Some (mkTable UniqueTermPos [] 0) /\
                 dictionary_old (V5.migrated db) = Some t).
    { unfold V5.migrated. rewrite Hrun. auto. }
    destruct H1 as [Ha Hb].
    assert (Hn : dictionary (Nat.iter (S n) V5.migrated db) =
                 Some (mkTable UniqueTermPos [] 0) /\
                 dictionary_old (Nat.iter (S n) V5.migrated db) = Some t).
    { rewrite Nat.iter_succ_r. apply v5_stuck_iter; assumption. }
    destruct Hn as [Hna Hnb].
    split; [rewrite Hrun; simpl; auto 10|].
    split; [exact Hna|]. split; [exact Hnb|].
    intros l Hl.
    apply (get_all_words_iff _ _ l Hna) in Hl. destruct Hl as [Hp _].
    simpl in Hp. apply Permutation_nil. symmetry. exact Hp.
Qed.

(** X8 at the file with [tea] twice, started three times. *)
Lemma X8_witness :
  In (V5.Failed V5.CopyRows IntegrityError)
     (V5.trace (V5.migrate_db store_foreign)) /\
  dictionary (Nat.iter 3 V5.migrated store_foreign) =
    Some (mkTable UniqueTermPos [] 0) /\
  dictionary_old (Nat.iter 3 V5.migrated store_foreign) = Some table_foreign /\
  (forall l : list Row,
     get_all_words (Nat.iter 3 V5.migrated store_foreign) l -> l = []).
Proof.
  apply (X8_failed_copy_is_not_retried store_foreign table_foreign 2).
  - reflexivity.
  - reflexivity.
  - simpl. intros H. inversion H as [|? ? Hx _]. apply Hx. left. reflexivity.
Defined.

(** X9.  Settings of version 5.0, on a file with a [settings] table.
    [set_setting] never raises and leaves [dictionary] alone; afterwards
    [get_setting] for that key returns the value set, whatever the default,
    and for every other key what it returned before; keys that were
    pairwise different stay so; and for a key that is not stored
    [get_setting] returns the default. *)
Theorem X9_settings_round_trip (db : DB) (rs : list (string * string))
        (k v : string) (default : option string) :
  settings db = Some rs ->
  exists (db' : DB) (rs' : list (string * string)),
    set_setting db k v = Ok db' /\
    settings db' = Some rs' /\
    dictionary db' = dictionary db /\
    get_setting db' k default = Ok (Some v) /\
    (forall (k' : string) (d' : option string),
       k' <> k -> get_setting db' k' d' = get_setting db k' d') /\
    (NoDup (map fst rs) -> NoDup (map fst rs')) /\
    (~ In k (map fst rs) -> get_setting db k default = Ok default).
Proof.
  intros Hs. unfold set_setting. rewrite Hs.
  eexists. eexists. split; [reflexivity|]. split; [reflexivity|].
  split; [reflexivity|]. split; [|split; [|split]].
  - unfold get_setting. simpl.
    rewrite filter_app, filter_where_key_same. simpl.
    unfold where_key. simpl. rewrite String.eqb_refl. reflexivity.
  - intros k' d' Hne. unfold get_setting. simpl. rewrite Hs.
    rewrite filter_app, (filter_where_key_other k k' rs Hne). simpl.
    unfold where_key at 2. simpl.
    destruct (String.eqb_spec k k') as [E|_]; [congruence|].
    rewrite app_nil_r. reflexivity.
  - intros Hn. rewrite map_app. simpl. apply NoDup_snoc.
    + apply NoDup_map_filter. exact Hn.
    + intros H. apply in_map_iff in H. destruct H as ([a b] & E & Hx).
      apply filter_In in Hx. destruct Hx as [_ Hx]. simpl in E. subst a.
      unfold where_key in Hx. simpl in Hx. rewrite String.eqb_refl in Hx.
      discriminate Hx.
  - intros Hk. unfold get_setting. rewrite Hs.
    rewrite (filter_where_key_absent k rs Hk). reflexivity.
Qed.

(** X9 at the legacy file, whose theme is set to Light. *)
Lemma X9_witness :
  exists (db' : DB) (rs' : list (string * string)),
    set_setting store_legacy "theme" "Light" = Ok db' /\
    settings db' = Some rs' /\
    dictionary db' = dictionary store_legacy /\
    get_setting db' "theme" (Some "Dark") = Ok (Some "Light") /\
    (forall (k' : string) (d' : option string),
       k' <> "theme" ->
       get_setting db' k' d' = get_setting store_legacy k' d') /\
    (NoDup (map fst [("theme", "Dark")]) -> NoDup (map fst rs')) /\
    (~ In "theme" (map fst [("theme", "Dark")]) ->
     get_setting store_legacy "theme" (Some "Dark") = Ok (Some "Dark")).
Proof.
  apply (X9_settings_round_trip store_legacy [("theme", "Dark")]
           "theme" "Light" (Some "Dark")).
  reflexivity.
Defined.

(** X10.  After [migrate_db] of version 5.0 there is a [settings]
    table, whatever the run: [get_setting] does not raise, and on a file
    that had no such table it returns the default for every key, as at the
    first start. *)
Theorem X10_settings_after_migration (db : DB) (k : string)
        (default : option string) :
  (exists v : option string,
     get_setting (V5.migrated db) k default = Ok v) /\
  (settings db = None ->
   get_setting (V5.migrated db) k default = Ok default).
Proof.
  assert (Hs : settings (V5.migrated db) = settings (create_settings db)).
  { destruct (v5_runs db)
      as [[Hd _]|[(t & old & _ & _ & Hm & _)
         |[(t & t' & _ & _ & _ & Hm & _)|(t & e & _ & _ & _ & Hm & _)]]].
    - unfold V5.migrated. rewrite (v5_new_file db Hd). simpl.
      destruct db as [d o s m]. simpl in *. subst d. destruct s; reflexivity.
    - rewrite Hm. reflexivity.
    - rewrite Hm. reflexivity.
    - rewrite Hm. reflexivity. }
  unfold get_setting. rewrite Hs. split.
  - destruct db as [d o s m]. simpl. destruct s as [rs|]; simpl.
    + destruct (fetchone _); eexists; reflexivity.
    + eexists; reflexivity.
  - intros Hn. destruct db as [d o s m]. simpl in *. subst s. reflexivity.
Qed.

(** X10 at a new file, for the theme. *)
Lemma X10_witness :
  get_setting (V5.migrated empty_db) "theme" (Some "Dark") = Ok (Some "Dark").
Proof.
  apply (proj2 (X10_settings_after_migration empty_db "theme" (Some "Dark"))).
  reflexivity.
Defined.


(** X12.  The list box and [display_items] go together.  After
    [refresh_list] and after [jump_to_word_filter] line [i] of the list box
    is the display string of entry [i] of [display_items] and every selected
    index is an index of the list box.  The other methods keep that:
    [show_detail], [save_entry], [delete_entry] and [_move].  In a window
    that is so, [_move] never raises [IndexError]. *)
Theorem X12_window_stays_consistent (fetched : list Row) (st : State)
        (query : string) :
  window_ok (refresh_list fetched st query) /\
  window_ok (jump_to_word_filter fetched st query) /\
  (window_ok st ->
   window_ok (show_detail st) /\
   (forall (db db' : DB) (entries : Data) (st' : State),
      Editing.save_entry db st entries fetched = Editing.Returns (db', st') ->
      window_ok st') /\
   (forall (db db' : DB) (entries : Data) (answer : bool) (st' : State),
      Editing.delete_entry db st entries answer fetched =
        Editing.Returns (db', st') ->
      window_ok st') /\
   (forall (db db' : DB) (d : Z) (st' : State),
      Editing._move db st d fetched = Editing.Returns (db', st') ->
      window_ok st') /\
   (forall (db : DB) (d : Z),
      Editing._move db st d fetched <> Editing.Raises Editing.IndexError)).
Proof.
  split; [apply window_ok_refresh_list|].
  split; [apply window_ok_jump|].
  intros Hok. split; [exact (window_ok_show_detail st Hok)|].
  split; [|split; [|split]].
  - intros db db' entries st'. unfold Editing.save_entry.
    destruct (current_mode st); [intros [= _ <-]; exact Hok|].
    destruct (Text.is_empty _); [intros [= _ <-]; exact Hok|].
    destruct (upsert_word _ _) as [[d1 res]|e]; [|discriminate].
    intros [= _ <-]. apply window_ok_log. apply window_ok_refresh_list.
  - intros db db' entries answer st'. unfold Editing.delete_entry.
    destruct (_ && _)%bool; [|intros [= _ <-]; exact Hok].
    destruct (delete_word _ _ _); [|discriminate].
    intros [= _ <-]. apply window_ok_log. apply window_ok_refresh_list.
  - intros db db' d st'. unfold Editing._move.
    destruct (negb _); [intros [= _ <-]; exact Hok|].
    destruct (curselection st) as [|i rest]; [intros [= _ <-]; exact Hok|].
    destruct (_ && _)%bool; [|intros [= _ <-]; exact Hok].
    destruct (nth_error _ i); [|discriminate].
    destruct (nth_error _ _); [|discriminate].
    destruct (update_order _ _ _ _ _); [|discriminate].
    intros [= _ <-]. apply window_ok_selection_set.
    apply window_ok_refresh_list.
  - intros db d. unfold Editing._move.
    destruct (negb _); [discriminate|].
    destruct (curselection st) as [|i rest] eqn:Hsel; [discriminate|].
    destruct (Z.leb_spec 0 (Z.of_nat i + d)) as [H0|_]; simpl;
      [|discriminate].
    destruct (Z.ltb_spec (Z.of_nat i + d)
                (Z.of_nat (List.length (display_items st)))) as [H1|_];
      [|discriminate].
    destruct Hok as [Ha Hs]. unfold selection_valid in Hs.
    rewrite Hsel in Hs. inversion Hs as [|? ? Hi _]; subst.
    rewrite (aligned_length st Ha) in Hi.
    destruct (nth_error (display_items st) i) eqn:E1.
    + destruct (nth_error (display_items st) (Z.to_nat (Z.of_nat i + d)))
        eqn:E2.
      * destruct (update_order _ _ _ _ _); discriminate.
      * apply nth_error_None in E2. lia.
    + apply nth_error_None in E1. lia.
Qed.

(** X12 at the window before any search. *)
Lemma X12_witness :
  Editing._move store_two start 1 [] <> Editing.Raises Editing.IndexError.
Proof.
  apply (proj2 (proj2 (X12_window_stays_consistent [] start ""))).
  split; [reflexivity|constructor].
Defined.

(** X13.  What [_move] leaves alone.  Whenever [_move] returns, the
    table has the rows it had, each with its [id] and its five fields and,
    but for two of them, its [sort_order].  With text in the search box,
    with nothing selected, with the first line selected on the way up or
    the last on the way down, the file and the window stay as they are,
    but for the warning in the log when the search box is not empty. *)
Theorem X13_move_touches_only_sort_order (db db' : DB) (t : Table)
        (st st' : State) (d : Z) (fetched : list Row) :
  dictionary db = Some t ->
  Editing._move db st d fetched = Editing.Returns (db', st') ->
  (exists (id1 id2 : Z) (rs' : list Row),
     db' = set_dictionary db
             (Some (mkTable (unique t) rs' (sqlite_sequence t))) /\
     Forall2 (reordered id1 id2) (rows t) rs') /\
  (entry_search st <> "" ->
   db' = db /\ st' = log st "Clear search first." warn) /\
  (entry_search st = "" ->
   (curselection st = [] -> db' = db /\ st' = st) /\
   (forall (i : nat) (rest : list nat),
      curselection st = i :: rest ->
      (i = 0%nat /\ d = -1) \/
      (d = 1 /\ (List.length (display_items st) <= S i)%nat) ->
      db' = db /\ st' = st)).
Proof.
  intros Hd. unfold Editing._move.
  assert (Hsame : db = set_dictionary db
                         (Some (mkTable (unique t) (rows t)
                                        (sqlite_sequence t)))).
  { rewrite table_eta. symmetry. apply set_dictionary_same. exact Hd. }
  assert (Hrefl : Forall2 (reordered 0 0) (rows t) (rows t)).
  { clear. induction (rows t); constructor; [|assumption].
    unfold reordered. repeat split. }
  destruct (entry_search st) as [|c s] eqn:Hq; simpl.
  - destruct (curselection st) as [|i rest] eqn:Hsel.
    + intros [= <- <-]. split; [exists 0, 0, (rows t); auto|].
      split; [congruence|]. intros _. split; [auto|]. discriminate.
    + destruct (Z.leb_spec 0 (Z.of_nat i + d)) as [H0|H0]; simpl.
      * destruct (Z.ltb_spec (Z.of_nat i + d)
                    (Z.of_nat (List.length (display_items st)))) as [H1|H1].
        -- destruct (nth_error _ i) as [item1|]; [|discriminate].
           destruct (nth_error _ _) as [item2|]; [|discriminate].
           unfold update_order. rewrite Hd. intros [= <- <-].
           split.
           ++ exists (id item1), (id item2). eexists.
              split; [reflexivity|]. apply reordered_update_order.
           ++ split; [congruence|]. intros _. split; [discriminate|].
              intros i' rest' [= <- <-] [[-> ->]|[-> Hl]]; simpl in *; lia.
        -- intros [= <- <-]. split; [exists 0, 0, (rows t); auto|].
           split; [congruence|]. intros _. split; [discriminate|]. auto.
      * intros [= <- <-]. split; [exists 0, 0, (rows t); auto|].
        split; [congruence|]. intros _. split; [discriminate|]. auto.
  - intros [= <- <-]. split; [exists 0, 0, (rows t); auto|].
    split; [auto|]. discriminate.
Qed.

(** X13 at the store with two entries: up from the first line. *)
Lemma X13_witness :
  (exists (id1 id2 : Z) (rs' : list Row),
     store_two =
       set_dictionary store_two (Some (mkTable UniqueTermPos rs' 2)) /\
     Forall2 (reordered id1 id2) (rows table_two) rs') /\
  (entry_search window_two <> "" ->
   store_two = store_two /\
   window_two = log window_two "Clear search first." warn) /\
  (entry_search window_two = "" ->
   (curselection window_two = [] ->
    store_two = store_two /\ window_two = window_two) /\
   (forall (i : nat) (rest : list nat),
      curselection window_two = i :: rest ->
      (i = 0%nat /\ -1 = -1) \/
      (-1 = 1 /\ (List.length (display_items window_two) <= S i)%nat) ->
      store_two = store_two /\ window_two = window_two)).
Proof.
  apply (X13_move_touches_only_sort_order store_two store_two table_two
           window_two window_two (-1) []); reflexivity.
Defined.

(** X14.  Moving an entry.  Let the table have a primary key [id] and no
    [sort_order] twice, the search box be empty and the window show the
    list of the file, with [a] right before [b].  Then [move_down] with [a]
    selected and [move_up] with [b] selected do the same to the file: [a]
    and [b] have each other's [sort_order], [get_all_words] returns one list
    only, the old one with the two exchanged, and the window shows that
    list with the moved entry selected. *)
Theorem X14_move_exchanges_neighbours (db : DB) (t : Table) (st : State)
        (pre post : list Row) (a b : Row) :
  dictionary db = Some t ->
  ids_unique (rows t) -> orders_unique (rows t) ->
  get_all_words db (pre ++ a :: b :: post) ->
  entry_search st = "" ->
  display_items st = (pre ++ a :: b :: post)%list ->
  exists db' : DB,
    update_order db (id a) (sort_order b) (id b) (sort_order a) = Ok db' /\
    (forall l : list Row,
       get_all_words db' l <->
       l = (pre ++ with_sort_order b (sort_order a) ::
                   with_sort_order a (sort_order b) :: post)%list) /\
    (forall (rest : list nat) (fetched : list Row),
       curselection st = List.length pre :: rest ->
       get_all_words db' fetched ->
       exists st' : State,
         Editing.move_down db st fetched = Editing.Returns (db', st') /\
         display_items st' =
           (pre ++ with_sort_order b (sort_order a) ::
                   with_sort_order a (sort_order b) :: post)%list /\
         listbox st' = map display_str (display_items st') /\
         curselection st' = [S (List.length pre)] /\
         nth_error (display_items st') (S (List.length pre)) =
           Some (with_sort_order a (sort_order b))) /\
    (forall (rest : list nat) (fetched : list Row),
       curselection st = S (List.length pre) :: rest ->
       get_all_words db' fetched ->
       exists st' : State,
         Editing.move_up db st fetched = Editing.Returns (db', st') /\
         display_items st' =
           (pre ++ with_sort_order b (sort_order a) ::
                   with_sort_order a (sort_order b) :: post)%list /\
         listbox st' = map display_str (display_items st') /\
         curselection st' = [List.length pre] /\
         nth_error (display_items st') (List.length pre) =
           Some (with_sort_order b (sort_order a))).
Proof.
  unfold ids_unique, orders_unique. intros Hd Hi Ho Hl Hq Hdisp.
  destruct (swap_listing db t pre post a b Hd Hi Ho Hl)
    as (E1 & E2 & Hiff & _).
  set (db' := set_dictionary db
                (Some (mkTable (unique t) (map (swapped a b) (rows t))
                               (sqlite_sequence t)))) in *.
  set (l' := (pre ++ with_sort_order b (sort_order a) ::
                     with_sort_order a (sort_order b) :: post)%list) in *.
  destruct (nth_error_middle pre post a b) as [Na Nb].
  destruct (nth_error_middle pre post (with_sort_order b (sort_order a))
              (with_sort_order a (sort_order b))) as [Nb' Na'].
  assert (Hlen : (S (List.length pre) < List.length l')%nat).
  { apply nth_error_Some. fold l' in Na'. rewrite Na'. discriminate. }
  exists db'. split; [exact E1|]. split; [exact Hiff|]. split.
  - intros rest fetched Hsel Hf. apply Hiff in Hf. subst fetched.
    eexists. split.
    + unfold Editing.move_down.
      apply (move_found db db' st 1 l' (List.length pre)
               (S (List.length pre)) rest a b Hq Hsel);
        [lia | rewrite Hdisp; exact Na | rewrite Hdisp; exact Nb | exact E1].
    + destruct (selection_set_after_refresh l' st (S (List.length pre)) Hlen)
        as (S1 & S2 & S3 & _).
      rewrite S1, S2, S3. repeat split. exact Na'.
  - intros rest fetched Hsel Hf. apply Hiff in Hf. subst fetched.
    eexists. split.
    + unfold Editing.move_up.
      apply (move_found db db' st (-1) l' (S (List.length pre))
               (List.length pre) rest b a Hq Hsel);
        [lia | rewrite Hdisp; exact Nb | rewrite Hdisp; exact Na | exact E2].
    + assert (Hlen' : (List.length pre < List.length l')%nat) by lia.
      destruct (selection_set_after_refresh l' st (List.length pre) Hlen')
        as (S1 & S2 & S3 & _).
      rewrite S1, S2, S3. repeat split. exact Nb'.
Qed.

(** X14 at the store with the two senses of [run]: the verb moves down. *)
Lemma X14_witness :
  exists db' : DB,
    update_order store_two 1 2 2 1 = Ok db' /\
    (forall l : list Row,
       get_all_words db' l <->
       l = [with_sort_order row_run_n 1; with_sort_order row_run_v 2]) /\
    (forall (rest : list nat) (fetched : list Row),
       curselection window_two = 0%nat :: rest ->
       get_all_words db' fetched ->
       exists st' : State,
         Editing.move_down store_two window_two fetched =
           Editing.Returns (db', st') /\
         display_items st' =
           [with_sort_order row_run_n 1; with_sort_order row_run_v 2] /\
         listbox st' = map display_str (display_items st') /\
         curselection st' = [1%nat] /\
         nth_error (display_items st') 1 =
           Some (with_sort_order row_run_v 2)) /\
    (forall (rest : list nat) (fetched : list Row),
       curselection window_two = 1%nat :: rest ->
       get_all_words db' fetched ->
       exists st' : State,
         Editing.move_up store_two window_two fetched =
           Editing.Returns (db', st') /\
         display_items st' =
           [with_sort_order row_run_n 1; with_sort_order row_run_v 2] /\
         listbox st' = map display_str (display_items st') /\
         curselection st' = [0%nat] /\
         nth_error (display_items st') 0 =
           Some (with_sort_order row_run_n 1)).
Proof.
  apply (X14_move_exchanges_neighbours store_two table_two window_two
           [] [] row_run_v row_run_n).
  - reflexivity.
  - unfold ids_unique. simpl.
    repeat constructor; simpl; intuition discriminate.
  - unfold orders_unique. simpl.
    repeat constructor; simpl; intuition discriminate.
  - apply (fetchall store_two table_two [row_run_v; row_run_n] eq_refl).
    apply Permutation_refl.
  - reflexivity.
  - reflexivity.
Defined.


(** X15.  Moving down, then up.  With a primary key [id], no [sort_order]
    twice, an empty search box and the window showing the list of the file
    with [a] selected and [b] below it: [move_down] followed by [move_up]
    leaves the file as it was, and the window shows the same list with the
    same line selected. *)
Theorem X15_move_down_then_up (db : DB) (t : Table) (st : State)
        (pre post : list Row) (a b : Row) (rest : list nat) :
  dictionary db = Some t ->
  ids_unique (rows t) -> orders_unique (rows t) ->
  get_all_words db (pre ++ a :: b :: post) ->
  entry_search st = "" ->
  display_items st = (pre ++ a :: b :: post)%list ->
  curselection st = List.length pre :: rest ->
  exists db1 : DB,
    (exists f1 : list Row, get_all_words db1 f1) /\
    forall f1 : list Row,
      get_all_words db1 f1 ->
      exists st1 : State,
        Editing.move_down db st f1 = Editing.Returns (db1, st1) /\
        forall f2 : list Row,
          get_all_words db f2 ->
          exists st2 : State,
            Editing.move_up db1 st1 f2 = Editing.Returns (db, st2) /\
            display_items st2 = display_items st /\
            listbox st2 = map display_str (display_items st) /\
            curselection st2 = [List.length pre].
Proof.
  unfold ids_unique, orders_unique. intros Hd Hi Ho Hl Hq Hdisp Hsel.
  destruct (swap_listing db t pre post a b Hd Hi Ho Hl)
    as (E1 & _ & Hiff & Ha & Hb & Hab).
  set (db1 := set_dictionary db
                (Some (mkTable (unique t) (map (swapped a b) (rows t))
                               (sqlite_sequence t)))) in *.
  set (l := (pre ++ a :: b :: post)%list) in *.
  set (l' := (pre ++ with_sort_order b (sort_order a) ::
                     with_sort_order a (sort_order b) :: post)%list) in *.
  destruct (nth_error_middle pre post a b) as [Na Nb]. fold l in Na, Nb.
  destruct (nth_error_middle pre post (with_sort_order b (sort_order a))
              (with_sort_order a (sort_order b))) as [Nb' Na'].
  fold l' in Na', Nb'.
  assert (Hlen' : (S (List.length pre) < List.length l')%nat).
  { apply nth_error_Some. rewrite Na'. discriminate. }
  assert (Hlen : (List.length pre < List.length l)%nat).
  { apply nth_error_Some. rewrite Na. discriminate. }
  assert (Back : update_order db1 (id a) (sort_order a) (id b) (sort_order b)
                 = Ok db).
  { unfold update_order, db1, swapped. simpl. unfold map_rows. simpl.
    rewrite <- (map_map (update_sort_order (sort_order b) (id a))
                        (update_sort_order (sort_order a) (id b))).
    rewrite (swap_back_rows (rows t) a b Hi Ha Hb), table_eta.
    destruct db; simpl in *. rewrite Hd. reflexivity. }
  exists db1. split; [exists l'; apply Hiff; reflexivity|].
  intros f1 Hf1. apply Hiff in Hf1. subst f1.
  eexists. split.
  - unfold Editing.move_down.
    apply (move_found db db1 st 1 l' (List.length pre)
             (S (List.length pre)) rest a b Hq Hsel);
      [lia | rewrite Hdisp; exact Na | rewrite Hdisp; exact Nb | exact E1].
  - intros f2 Hf2.
    assert (f2 = l).
    { apply (get_all_words_iff db t _ Hd) in Hl, Hf2.
      destruct Hl as [Pl Sl], Hf2 as [P2 S2].
      apply ascending_unique; [| |exact S2|exact Sl].
      - rewrite P2, Pl. reflexivity.
      - apply (Permutation_NoDup (l := map sort_order (rows t)));
          [|exact Ho].
        apply Permutation_map. symmetry. exact P2. }
    subst f2.
    destruct (selection_set_after_refresh l' st (S (List.length pre)) Hlen')
      as (S1 & _ & S3 & S4).
    set (st1 := Editing.selection_set (S (List.length pre))
                  (refresh_list l' st "")) in *.
    eexists. split.
    + unfold Editing.move_up.
      apply (move_found db1 db st1 (-1) l (S (List.length pre))
               (List.length pre) [] (with_sort_order a (sort_order b))
               (with_sort_order b (sort_order a)));
        [rewrite S4; exact Hq | exact S3 | lia
        | rewrite S1; exact Na' | rewrite S1; exact Nb' | exact Back].
    + destruct (selection_set_after_refresh l st1 (List.length pre) Hlen)
        as (T1 & T2 & T3 & _).
      rewrite T1, T2, T3, Hdisp. repeat split.
Qed.

(** X15 at the store with the two senses of [run]. *)
Lemma X15_witness :
  exists db1 : DB,
    (exists f1 : list Row, get_all_words db1 f1) /\
    forall f1 : list Row,
      get_all_words db1 f1 ->
      exists st1 : State,
        Editing.move_down store_two window_two f1 =
          Editing.Returns (db1, st1) /\
        forall f2 : list Row,
          get_all_words store_two f2 ->
          exists st2 : State,
            Editing.move_up db1 st1 f2 = Editing.Returns (store_two, st2) /\
            display_items st2 = display_items window_two /\
            listbox st2 = map display_str (display_items window_two) /\
            curselection st2 = [0%nat].
Proof.
  apply (X15_move_down_then_up store_two table_two window_two
           [] [] row_run_v row_run_n []).
  - reflexivity.
  - unfold ids_unique. simpl.
    repeat constructor; simpl; intuition discriminate.
  - unfold orders_unique. simpl.
    repeat constructor; simpl; intuition discriminate.
  - apply (fetchall store_two table_two [row_run_v; row_run_n] eq_refl).
    apply Permutation_refl.
  - reflexivity.
  - reflexivity.
  - reflexivity.
Defined.











(** X19.  Importing a file that holds one object, its members named by
    terms.  If the record of any member has a key [term] of its own, a
    [TypeError] ends the import before anything is stored.  If none has,
    the import goes as for the list of the records, each with the name of
    its member as its term, in the order of the file; a [word] in a record
    is not looked at, and the member with the empty name is passed over. *)
Theorem X19_import_of_an_object (db : DB) (m : list (string * Json.Object)) :
  (forall (k : string) (v : Json.Object),
     In (k, v) m -> Json.has_key v "term" = true ->
     Json.import_json_logic db (Json.Members m) =
       (db, 0%nat, Some Json.TypeError)) /\
  ((forall (k : string) (v : Json.Object),
      In (k, v) m -> Json.has_key v "term" = false) ->
   Json.import_json_logic db (Json.Members m) =
     Json.import_json_logic db (Json.Array (map member_item m)) /\
   (forall kv : string * Json.Object,
      Json.term_of (member_item kv) = Json.Str (fst kv)) /\
   kept (map member_item m) =
     map member_item (filter (fun kv => negb (Text.is_empty (fst kv))) m)).
Proof.
  split.
  - intros k v Hin Hv. unfold Json.import_json_logic. simpl.
    rewrite (members_items_clash m k v Hin Hv). reflexivity.
  - intros H. split; [|split].
    + unfold Json.import_json_logic. simpl.
      rewrite (members_items_map m H). reflexivity.
    + intros kv. reflexivity.
    + unfold kept. clear H. induction m as [|kv m IH]; [reflexivity|].
      simpl. destruct (Text.is_empty (fst kv)); simpl; rewrite IH;
        reflexivity.
Qed.

(** X19 for a file whose second member brings a term of its own. *)
Lemma X19_witness :
  Json.import_json_logic store_run
    (Json.Members
       [("tea", [("meaning", Json.Str "a drink")]);
        ("milk", [("term", Json.Str "cream")])]) =
  (store_run, 0%nat, Some Json.TypeError).
Proof.
  apply (proj1 (X19_import_of_an_object store_run
                  [("tea", [("meaning", Json.Str "a drink")]);
                   ("milk", [("term", Json.Str "cream")])])
               "milk" [("term", Json.Str "cream")]).
  - right. left. reflexivity.
  - reflexivity.
Defined.


(** X20.  An import that fails on the way.  When the records before one
    have gone in and the call of [upsert_word] for that one raises, the
    import ends with that exception: the records before it stay stored and
    counted, the one that failed and all after it are not stored.  An
    integer term beyond 64 bits is such a record, with [OverflowError]. *)
Theorem X20_import_stops_at_first_failure (db db1 : DB) (c1 : nat)
        (pre rest : list Json.Object) (item : Json.Object) :
  Json.import_json_logic db (Json.Array pre) = (db1, c1, None) ->
  Json.truthy (Json.term_of item) = true ->
  (forall e : Json.Exception,
     snd (Json.upsert_item db1 item) = Some e ->
     Json.import_json_logic db (Json.Array (pre ++ item :: rest)) =
       (db1, c1, Some e)) /\
  (forall (t1 : Table) (z : Z),
     dictionary db1 = Some t1 -> Json.term_of item = Json.Int z ->
     z < - 2 ^ 63 \/ 2 ^ 63 <= z ->
     Json.import_json_logic db (Json.Array (pre ++ item :: rest)) =
       (db1, c1, Some Json.OverflowError)).
Proof.
  unfold Json.import_json_logic. simpl. intros Hpre Ht.
  assert (Hfail : forall e : Json.Exception,
            snd (Json.upsert_item db1 item) = Some e ->
            Json.import_loop db (pre ++ item :: rest) 0 = (db1, c1, Some e)).
  { intros e He. rewrite (import_loop_app pre (item :: rest) _ _ _ _ Hpre).
    simpl. rewrite Ht.
    destruct (Json.upsert_item db1 item) as [db' o] eqn:U. simpl in He.
    subst o. rewrite (upsert_item_raises _ _ _ _ U). reflexivity. }
  split; [exact Hfail|].
  intros t1 z Hd Hz Hr. apply Hfail.
  rewrite (upsert_item_overflow db1 t1 item Hd); [reflexivity|].
  left. rewrite Hz. apply bind_out_of_range. exact Hr.
Qed.

(** X20 for a file whose second record has the term 2^63. *)
Lemma X20_witness :
  Json.import_json_logic store_run
    (Json.Array
       ([[("term", Json.Str "tea"); ("pos", Json.Str "N(名詞)")]] ++
        [("term", Json.Int 9223372036854775808)] ::
        [[("term", Json.Str "milk")]])) =
  (mkDB (Some (mkTable UniqueTermPos
                 [row_run_v; mkRow 2 "tea" "" "N(名詞)" "" "" 2] 2))
        None None (Some []),
   1%nat, Some Json.OverflowError).
Proof.
  apply (proj2 (X20_import_stops_at_first_failure store_run
                  (mkDB (Some (mkTable UniqueTermPos
                                 [row_run_v;
                                  mkRow 2 "tea" "" "N(名詞)" "" "" 2] 2))
                        None None (Some []))
                  1 [[("term", Json.Str "tea"); ("pos", Json.Str "N(名詞)")]]
                  [[("term", Json.Str "milk")]]
                  [("term", Json.Int 9223372036854775808)]
                  eq_refl eq_refl)
               (mkTable UniqueTermPos
                  [row_run_v; mkRow 2 "tea" "" "N(名詞)" "" "" 2] 2)
               9223372036854775808 eq_refl eq_refl).
  right. lia.
Defined.


(** X21.  Export, then import into a new file.  Let no two entries of a
    file share term and part of speech and none have the empty term, and
    let [json.load] read what [json.dump] wrote.  Importing the export of
    the file into a file that version 6.0 has just created raises nothing
    and counts every entry.  The new file lists the same entries with the
    same five fields in the order of the export, and in that order only;
    [id] and [sort_order] of the export are not read: both count from 1. *)
Theorem X21_export_then_import (db : DB) (t : Table) (fetched : list Row) :
  dictionary db = Some t -> entries_unique (rows t) -> no_empty_term db ->
  get_all_words db fetched ->
  let db' := set_dictionary fresh
               (Some (mkTable UniqueTermPos (numbered 0 fetched)
                              (Z.of_nat (List.length fetched)))) in
  Json.import_json_logic fresh (Json.do_export_json fetched) =
    (db', List.length fetched, None) /\
  (forall l : list Row, get_all_words db' l <-> l = numbered 0 fetched) /\
  map fields_of (numbered 0 fetched) = map fields_of fetched /\
  map id (numbered 0 fetched) =
    map Z.of_nat (List.seq 1 (List.length fetched)) /\
  map sort_order (numbered 0 fetched) = map id (numbered 0 fetched).
Proof.
  intros Hd Hu Hn Hl db'.
  apply (get_all_words_iff db t _ Hd) in Hl. destruct Hl as [Hp _].
  unfold no_empty_term in Hn. rewrite Hd in Hn.
  assert (Hk : NoDup (map key fetched)).
  { apply (Permutation_NoDup (l := map key (rows t))); [|exact Hu].
    apply Permutation_map. symmetry. exact Hp. }
  assert (Hne : Forall (fun r => term r <> "") fetched).
  { apply (Permutation_Forall (Permutation_sym Hp)). exact Hn. }
  split; [|split; [|split; [|split]]].
  - unfold Json.import_json_logic, Json.do_export_json. simpl.
    rewrite (import_loop_numbered fetched fresh (mkTable UniqueTermPos [] 0)
               0 0 eq_refl eq_refl eq_refl);
      [reflexivity | simpl; lia | reflexivity | exact Hk
      | intros r _ [] | exact Hne].
  - intros l. unfold db'.
    rewrite (get_all_words_iff
               (set_dictionary fresh
                  (Some (mkTable UniqueTermPos (numbered 0 fetched)
                                 (Z.of_nat (List.length fetched)))))
               (mkTable UniqueTermPos (numbered 0 fetched)
                        (Z.of_nat (List.length fetched))) l eq_refl).
    simpl. split.
    + intros [P S]. apply ascending_unique;
        [exact P | | exact S | apply numbered_ascending].
      apply (Permutation_NoDup
               (l := map sort_order (numbered 0 fetched))).
      * apply Permutation_map. symmetry. exact P.
      * apply numbered_orders_unique.
    + intros ->. split; [reflexivity|apply numbered_ascending].
  - apply numbered_fields.
  - apply numbered_ids. reflexivity.
  - apply numbered_orders.
Qed.

(** X21 for the store with the two senses of [run]. *)
Lemma X21_witness :
  Json.import_json_logic fresh
    (Json.do_export_json [row_run_v; row_run_n]) =
    (set_dictionary fresh
       (Some (mkTable UniqueTermPos (numbered 0 [row_run_v; row_run_n])
                      (Z.of_nat (List.length [row_run_v; row_run_n])))),
     List.length [row_run_v; row_run_n], None) /\
  (forall l : list Row,
     get_all_words
       (set_dictionary fresh
          (Some (mkTable UniqueTermPos (numbered 0 [row_run_v; row_run_n])
                         (Z.of_nat (List.length [row_run_v; row_run_n])))))
       l <-> l = numbered 0 [row_run_v; row_run_n]) /\
  map fields_of (numbered 0 [row_run_v; row_run_n]) =
    map fields_of [row_run_v; row_run_n] /\
  map id (numbered 0 [row_run_v; row_run_n]) =
    map Z.of_nat (List.seq 1 (List.length [row_run_v; row_run_n])) /\
  map sort_order (numbered 0 [row_run_v; row_run_n]) =
    map id (numbered 0 [row_run_v; row_run_n]).
Proof.
  apply (X21_export_then_import store_two table_two
           [row_run_v; row_run_n] eq_refl).
  - unfold entries_unique. simpl.
    repeat constructor; simpl; intuition discriminate.
  - unfold no_empty_term. simpl. repeat constructor; discriminate.
  - apply (fetchall store_two table_two [row_run_v; row_run_n] eq_refl).
    apply Permutation_refl.
Defined.


(** X22.  The links of the detail pane.  No link runs over a line break:
    the links of a text are those of its lines, line after line.  For the
    entry that [show_detail] shows, the words under the [hyperlink] tag are
    therefore the links of the pronunciation, of the part of speech, of the
    meaning and of the example, in this order; the labels add none, and a
    bracket left open in one field is not closed by the next. *)
Theorem X22_links_of_the_detail_pane (st : State) (idx : nat)
        (rest : list nat) (item : Row) :
  curselection st = idx :: rest ->
  nth_error (display_items st) idx = Some item ->
  link_words (detail_text (show_detail st)) =
    (links_of (pronunciation item) ++ links_of (pos item) ++
     links_of (meaning item) ++ links_of (example item))%list /\
  (forall a b : string,
     links_of (a ++ nl ++ b) = (links_of a ++ links_of b)%list).
Proof.
  intros Hsel Hitem. split; [|exact links_of_lines].
  unfold show_detail. rewrite Hsel, Hitem. cbn [detail_text].
  exact (links_of_content item).
Qed.

(** X22 for the first line of the window with the two senses of [run]. *)
Lemma X22_witness :
  link_words (detail_text (show_detail window_two)) =
    (links_of (pronunciation row_run_v) ++ links_of (pos row_run_v) ++
     links_of (meaning row_run_v) ++ links_of (example row_run_v))%list /\
  (forall a b : string,
     links_of (a ++ nl ++ b) = (links_of a ++ links_of b)%list).
Proof.
  apply (X22_links_of_the_detail_pane window_two 0 [] row_run_v).
  - reflexivity.
  - reflexivity.
Defined.
